(** * Instagram Analytics Dashboard: the logic of [app.py]

  A shallow embedding of the secrets resolver ([SecretsManager]), the post
  retrieval service ([InstagramAnalytics.scrape_instagram_posts] and
  [_get_demo_data]), the content classifier ([analyze_with_gemini]), the
  bookmark toggle ([bookmark_post]) and the sort performed in [main],
  with the properties stated about them.

  Python dictionaries are [gmap]s (or association lists where the order of
  the entries reaches the output), exceptions are an explicit result type,
  and everything the program reads from outside (clock, environment, files,
  the two remote providers) is an explicit argument. *)

From stdpp Require Import gmap strings list fin_maps pretty sorting.
From Stdlib Require Import ZArith Ascii.
From Stdlib Require String.

Local Open Scope string_scope.
Local Open Scope Z_scope.

Local Set Warnings "-register-all".

(** ** Python values used by the program *)

Module Py.

(** A [str] is held as the bytes of its UTF-8 encoding.  Text is ASCII when
    every byte is below 128; every character outside ASCII is encoded with
    bytes from 128 on. *)
Fixpoint is_ascii (s : string) : bool :=
  match s with
  | EmptyString => true
  | String c r => (nat_of_ascii c <? 128)%nat && is_ascii r
  end.

(** Folding the letters A to Z to lower case and a to z to upper case. *)
Definition lower_ascii (c : ascii) : ascii :=
  let n := nat_of_ascii c in
  if ((65 <=? n) && (n <=? 90))%nat then ascii_of_nat (n + 32) else c.

Definition upper_ascii (c : ascii) : ascii :=
  let n := nat_of_ascii c in
  if ((97 <=? n) && (n <=? 122))%nat then ascii_of_nat (n - 32) else c.

Fixpoint ascii_lower (s : string) : string :=
  match s with
  | EmptyString => EmptyString
  | String c r => String (lower_ascii c) (ascii_lower r)
  end.

Fixpoint ascii_upper (s : string) : string :=
  match s with
  | EmptyString => EmptyString
  | String c r => String (upper_ascii c) (ascii_upper r)
  end.

(** The case mapping of the Unicode database for text outside ASCII, which
    is not part of the program: what [str.lower] and [str.upper] return for
    such text. *)
Class Unicode : Type := {
  unicode_lower : string → string;
  unicode_upper : string → string
}.

(** [str.lower] and [str.upper]: on ASCII text the fold of its letters, on
    other text the mapping of the Unicode database. *)
Definition lower {UC : Unicode} (s : string) : string :=
  if is_ascii s then ascii_lower s else unicode_lower s.

Definition upper {UC : Unicode} (s : string) : string :=
  if is_ascii s then ascii_upper s else unicode_upper s.

(** The double quote character. *)
Definition dq : string := String (ascii_of_nat 34) EmptyString.

(** Newline. *)
Definition nl : string := String (ascii_of_nat 10) EmptyString.

(** Truth value of a [str]: the empty string is false. *)
Definition truthy_str (s : string) : bool :=
  match s with EmptyString => false | String _ _ => true end.

(** [d.get(key, "")] on a dictionary of strings. *)
Definition get_str (d : gmap string string) (key : string) : string :=
  default "" (d !! key).

(** [bool(d.get(key))]: an absent key gives [None], which is false. *)
Definition get_truthy (d : gmap string string) (key : string) : bool :=
  match d !! key with Some v => truthy_str v | None => false end.

(** Loosely typed data, as JSON documents and YAML files carry it. *)
Inductive value : Type :=
| VNone
| VBool (b : bool)
| VInt (z : Z)
| VStr (s : string)
| VList (l : list value)
| VDict (d : list (string * value)).

(** Python's truth value testing. *)
Definition truthy (v : value) : bool :=
  match v with
  | VNone => false
  | VBool b => b
  | VInt z => negb (z =? 0)
  | VStr s => truthy_str s
  | VList l => match l with [] => false | _ => true end
  | VDict d => match d with [] => false | _ => true end
  end.

(** An exception object, an instance of [Exception]; [str(e)] is its
    message. *)
Record exn : Type := Exn { exn_class : string; exn_msg : string }.

(** Outcome of running a piece of Python: a value or a raised exception. *)
Inductive res (A : Type) : Type :=
| Ok (a : A)
| Raise (e : exn).
Arguments Ok {A} a.
Arguments Raise {A} e.

Definition is_ok {A} (r : res A) : bool :=
  match r with Ok _ => true | Raise _ => false end.

End Py.

Import Py.

(** ** Files, as far as [save_secrets_to_file] touches them *)

Module FS.

(** A [pathlib.Path] relative to the working directory: the directory part
    ([Path.parent], ["."] for the working directory itself) and the whole
    path. *)
Record path : Type := Path { parent : string; full : string }.

(** The part of the file system the program can see.  [dirs] are the
    directories that exist below the working directory (which always exists),
    [files] the regular files with their text, [denied] the paths the process
    may not create or open for writing, and [room] the number of characters
    the device still accepts. *)
Record t : Type := {
  dirs : gset string;
  files : gmap string string;
  denied : gset string;
  room : nat
}.

Definition is_dir (fs : t) (p : string) : bool :=
  bool_decide (p = ".") || bool_decide (p ∈ dirs fs).

Definition with_dir (p : string) (fs : t) : t :=
  {| dirs := {[p]} ∪ dirs fs; files := files fs;
     denied := denied fs; room := room fs |}.

Definition with_file (p content : string) (used : nat) (fs : t) : t :=
  {| dirs := dirs fs; files := <[p := content]> (files fs);
     denied := denied fs; room := (room fs - used)%nat |}.

(** [Path.mkdir(exist_ok=True)]: an existing directory is accepted, an
    existing regular file is not. *)
Definition mkdir_exist_ok (p : string) (fs : t) : res unit * t :=
  if is_dir fs p then (Ok (), fs)
  else if bool_decide (is_Some (files fs !! p))
  then (Raise (Exn "FileExistsError" p), fs)
  else if bool_decide (p ∈ denied fs)
  then (Raise (Exn "PermissionError" p), fs)
  else (Ok (), with_dir p fs).

(** [with open(p, 'w') as f: f.write(content)].  Opening truncates the file;
    when the device takes fewer characters than [content] has, what fits is
    written and the error of the failed write leaves the [with] block. *)
Definition write_text (p : path) (content : string) (fs : t) : res unit * t :=
  if negb (is_dir fs (parent p))
  then (Raise (Exn "FileNotFoundError" (full p)), fs)
  else if is_dir fs (full p)
  then (Raise (Exn "IsADirectoryError" (full p)), fs)
  else if bool_decide (full p ∈ denied fs)
  then (Raise (Exn "PermissionError" (full p)), fs)
  else if (String.length content <=? room fs)%nat
  then (Ok (), with_file (full p) content (String.length content) fs)
  else (Raise (Exn "OSError" "No space left on device"),
        with_file (full p) (String.substring 0 (room fs) content) (room fs) fs).

End FS.

(** ** Secrets resolver: [SecretsManager] *)

Module SecretsManager.

Section Keys.
Context {UC : Unicode}.

(** What [load_secrets] reads from outside.  A source that cannot be read
    is [None]: for [st_secrets] the store raises on access, for the two
    files the file does not exist or the [try] block around its parsing
    raises (no [tomli], unreadable or malformed file).  [config_yaml] is the
    [api_keys] section of the parsed file (the empty dictionary when the file
    has no such section). *)
Record Sources : Type := {
  st_secrets : option (gmap string string);
  os_environ : gmap string string;
  secrets_toml : option (gmap string string);
  config_yaml : option (gmap string string)
}.

(** The five credentials: name in the stores, key in [api_keys]. *)
Definition credential_names : list (string * string) :=
  [ ("APIFY_TOKEN", "apify_token");
    ("GEMINI_API_KEY", "gemini_api_key");
    ("INSTAGRAM_SESSION_ID", "instagram_session_id");
    ("PROXY_URL", "proxy_url");
    ("OPENAI_API_KEY", "openai_api_key") ].

(** Priority 1: [self.api_keys.update({...})] inside [try ... except: pass].
    All five keys are written, with [""] for a name the store lacks. *)
Definition load_streamlit (src : Sources) (api_keys : gmap string string)
  : gmap string string :=
  match st_secrets src with
  | Some secrets =>
      foldl (λ acc '(name, key), <[key := get_str secrets name]> acc)
            api_keys credential_names
  | None => api_keys
  end.

(** Priority 2: the [env_keys] dictionary and the loop over its items. *)
Definition env_keys (src : Sources) : list (string * string) :=
  (λ '(name, key), (key, get_str (os_environ src) name)) <$> credential_names.

Definition fill (api_keys : gmap string string) (key value : string)
  : gmap string string :=
  if truthy_str value && negb (get_truthy api_keys key)
  then <[key := value]> api_keys else api_keys.

Definition load_env (src : Sources) (api_keys : gmap string string)
  : gmap string string :=
  foldl (λ acc '(key, value), fill acc key value) api_keys (env_keys src).

(** Priority 3: the local secrets file.  The guard is [key in secrets_data],
    not the truth value of the entry. *)
Definition load_toml (src : Sources) (api_keys : gmap string string)
  : gmap string string :=
  match secrets_toml src with
  | Some secrets_data =>
      foldl (λ acc key,
               match secrets_data !! key with
               | Some v =>
                   if negb (get_truthy acc (lower key))
                   then <[lower key := v]> acc else acc
               | None => acc
               end)
            api_keys (fst <$> credential_names)
  | None => api_keys
  end.

(** Priority 4: every item of the [api_keys] section of the config file. *)
Definition load_yaml (src : Sources) (api_keys : gmap string string)
  : gmap string string :=
  match config_yaml src with
  | Some api_section =>
      map_fold (λ key value acc, fill acc key value) api_keys api_section
  | None => api_keys
  end.

Definition load_secrets (src : Sources) (api_keys : gmap string string)
  : gmap string string :=
  load_yaml src (load_toml src (load_env src (load_streamlit src api_keys))).

(** [__init__]: [self.api_keys = {}] followed by [self.load_secrets()]. *)
Definition init (src : Sources) : gmap string string := load_secrets src ∅.

Definition get_secret (api_keys : gmap string string) (key : string) : string :=
  get_str api_keys (lower key).

Definition required_keys : list string := ["apify_token"; "gemini_api_key"].

Definition has_required_keys (api_keys : gmap string string) : bool :=
  forallb (λ key, truthy_str (get_secret api_keys key)) required_keys.

Definition get_missing_keys (api_keys : gmap string string) : list string :=
  List.filter (λ key, negb (truthy_str (get_secret api_keys key))) required_keys.

(** The three files of [__init__]. *)
Definition secrets_file : FS.path := FS.Path ".streamlit" ".streamlit/secrets.toml".
Definition env_file : FS.path := FS.Path "." ".env".
Definition config_file : FS.path := FS.Path "." "config.yaml".

(** The text accumulated by the loop of the [toml] branch; entries whose
    value is empty are skipped. *)
Fixpoint toml_content (secrets_dict : list (string * string)) : string :=
  match secrets_dict with
  | [] => ""
  | (key, value) :: rest =>
      (if truthy_str value
       then upper key +:+ " = " +:+ dq +:+ value +:+ dq +:+ nl
       else "") +:+ toml_content rest
  end.

(** The same for the [env] branch. *)
Fixpoint env_content (secrets_dict : list (string * string)) : string :=
  match secrets_dict with
  | [] => ""
  | (key, value) :: rest =>
      (if truthy_str value then upper key +:+ "=" +:+ value +:+ nl else "")
      +:+ env_content rest
  end.

(** The [app_settings] block of the [yaml] branch. *)
Definition app_settings : value :=
  VDict [ ("debug_mode", VBool false);
          ("cache_enabled", VBool true);
          ("max_posts_per_request", VInt 100) ].

Definition config_data (secrets_dict : list (string * string)) : value :=
  VDict [ ("api_keys", VDict (prod_map id VStr <$> secrets_dict));
          ("app_settings", app_settings) ].

(** [save_secrets_to_file].  [yaml_dump] is the text [yaml.dump] produces for
    a document ([default_flow_style=False]).  No statement of the function
    is inside a [try]. *)
Definition save_secrets_to_file (yaml_dump : value → string)
    (secrets_dict : list (string * string)) (file_type : string) (fs : FS.t)
  : res unit * FS.t :=
  if bool_decide (file_type = "toml") then
    match FS.mkdir_exist_ok (FS.parent secrets_file) fs with
    | (Ok _, fs1) => FS.write_text secrets_file (toml_content secrets_dict) fs1
    | (Raise e, fs1) => (Raise e, fs1)
    end
  else if bool_decide (file_type = "env") then
    FS.write_text env_file (env_content secrets_dict) fs
  else if bool_decide (file_type = "yaml") then
    FS.write_text config_file (yaml_dump (config_data secrets_dict)) fs
  else (Ok (), fs).

(** What each source yields for a credential, [""] when it yields nothing. *)
Definition from_streamlit (src : Sources) (name : string) : string :=
  match st_secrets src with Some m => get_str m name | None => "" end.
Definition from_env (src : Sources) (name : string) : string :=
  get_str (os_environ src) name.
Definition from_toml (src : Sources) (name : string) : string :=
  match secrets_toml src with Some m => get_str m name | None => "" end.
Definition from_yaml (src : Sources) (key : string) : string :=
  match config_yaml src with Some m => get_str m key | None => "" end.

(** First non-empty string of a list, [""] when there is none. *)
Fixpoint first_nonempty (l : list string) : string :=
  match l with
  | [] => ""
  | s :: r => if truthy_str s then s else first_nonempty r
  end.

End Keys.

End SecretsManager.

(** ** The interactive session and the outside world *)

Module Streamlit.

(** The notices the page can show: [st.warning], [st.error], [st.success]. *)
Inductive level : Type := Warning | Error | Success.

Record notice : Type := Notice { notice_level : level; notice_text : string }.

End Streamlit.

Import Streamlit.

(** Points in time and durations are integers, in microseconds (the
    resolution of [datetime]); [timedelta days] is [timedelta(days=days)]. *)
Definition timedelta (days : Z) : Z := days * 86400000000.

(** A [datetime] object.  An aware one carries an offset and [instant] is
    its point on the time line of UTC; a naive one carries none and
    [instant] is the reading of the wall clock it stands for. *)
Record datetime : Type := DateTime { instant : Z; aware : bool }.

(** What [datetime.now()] returns for the clock reading [t], and what
    subtracting a [timedelta] from it gives: a naive object. *)
Definition naive (t : Z) : datetime := DateTime t false.

(** The exception of an ordering comparison between a naive and an aware
    object. *)
Definition datetime_type_error : exn :=
  Exn "TypeError" "can't compare offset-naive and offset-aware datetimes".

(** [a >= b] and [a < b] on [datetime] objects. *)
Definition datetime_ge (a b : datetime) : res bool :=
  if bool_decide (aware a = aware b) then Ok (instant b <=? instant a)
  else Raise datetime_type_error.

Definition datetime_lt (a b : datetime) : res bool :=
  if bool_decide (aware a = aware b) then Ok (instant a <? instant b)
  else Raise datetime_type_error.

Module Item.

(** A raw item of the provider's result set: the fields the program reads,
    each of which may be missing ([None]).  [videoUrl] and [sidecarMedias]
    are only ever tested for their truth value and stay loosely typed. *)
Record t : Type := {
  id : option string;
  ownerUsername : option string;
  displayUrl : option string;
  likesCount : option Z;
  commentsCount : option Z;
  videoViewCount : option Z;
  caption : option string;
  videoUrl : option value;
  sidecarMedias : option value;
  shortCode : option string;
  timestamp : option string
}.

End Item.

Module Post.

(** A normalized post record (the dictionaries built by both paths). *)
Record t : Type := {
  id : string;
  creator : string;
  thumbnail : string;
  likes : Z;
  comments : Z;
  shares : Z;
  views : Z;
  caption : string;
  post_type : string;
  url : string;
  timestamp : datetime;
  hashtags : list string
}.

End Post.

(** The input of one run of the scraping actor.  [dateFrom] is the instant
    whose [isoformat] text the program sends. *)
Record ActorInput : Type := {
  ai_hashtags : list string;
  ai_resultsLimit : Z;
  ai_searchType : string;
  ai_addParentData : bool;
  ai_dateFrom : Z;
  ai_proxy : option (bool * list string)
}.

(** Everything outside the program: the clock ([clock k] is what the
    [k]-th call of [datetime.now()] returns), the scraping provider (the
    outcome of its [k]-th run: the items of its result set, or the exception
    raised by the call or while the result set is read), the AI provider (the outcome of the [k]-th
    [generate_content] call, the text of the response or an exception), the
    library functions [datetime.fromisoformat] (whose result is aware when
    the text carries an offset and naive otherwise) and [json.loads], the
    character class [\w], and whether the two clients can be set up. *)
Record Env : Type := {
  clock : nat → Z;
  actor : nat → ActorInput → res (list Item.t);
  generate_content : nat → string → res string;
  fromisoformat : string → res datetime;
  json_loads : string → res value;
  word_char : ascii → bool;
  genai_setup : res unit;
  apify_setup : res unit
}.

(** The mutable state of one session: how often the clock, the scraping
    provider and the AI model have been asked so far, the notices shown, and
    [st.session_state.bookmarks]. *)
Record World : Type := {
  clock_reads : nat;
  actor_runs : nat;
  model_calls : nat;
  notices : list notice;
  bookmarks : list string
}.

(** Effectful code: a state transformer over [World] that may raise. *)
Definition M (A : Type) : Type := World → res A * World.

#[global] Instance M_ret : MRet M := λ A a w, (Ok a, w).

#[global] Instance M_bind : MBind M := λ A B k m w,
  match m w with
  | (Ok a, w') => k a w'
  | (Raise e, w') => (Raise e, w')
  end.

(** [raise] and [try: body except Exception as e: handler(e)]. *)
Definition raise {A} (e : exn) : M A := λ w, (Raise e, w).

Definition try_except {A} (body : M A) (handler : exn → M A) : M A :=
  λ w, match body w with
       | (Ok a, w') => (Ok a, w')
       | (Raise e, w') => handler e w'
       end.

Definition lift {A} (r : res A) : M A := λ w, (r, w).

Fixpoint mapM {A B} (f : A → M B) (l : list A) : M (list B) :=
  match l with
  | [] => mret []
  | a :: r => b ← f a; bs ← mapM f r; mret (b :: bs)
  end.

Definition show (lv : level) (text : string) : M unit :=
  λ w, (Ok (), {| clock_reads := clock_reads w; actor_runs := actor_runs w;
                  model_calls := model_calls w;
                  notices := notices w ++ [Notice lv text];
                  bookmarks := bookmarks w |}).

(** [datetime.now()]: the reading of the wall clock; the object returned
    is [naive] of it. *)
Definition datetime_now (env : Env) : M Z :=
  λ w, (Ok (clock env (clock_reads w)),
        {| clock_reads := S (clock_reads w); actor_runs := actor_runs w;
           model_calls := model_calls w; notices := notices w;
           bookmarks := bookmarks w |}).

Definition actor_call (env : Env) (input : ActorInput) : M (list Item.t) :=
  λ w, (actor env (actor_runs w) input,
        {| clock_reads := clock_reads w; actor_runs := S (actor_runs w);
           model_calls := model_calls w; notices := notices w;
           bookmarks := bookmarks w |}).

Definition model_generate_content (env : Env) (prompt : string) : M string :=
  λ w, (generate_content env (model_calls w) prompt,
        {| clock_reads := clock_reads w; actor_runs := actor_runs w;
           model_calls := S (model_calls w); notices := notices w;
           bookmarks := bookmarks w |}).

(** [[x for x in l if p(x)]] for a test that may raise. *)
Fixpoint filter_res {A} (p : A → res bool) (l : list A) : res (list A) :=
  match l with
  | [] => Ok []
  | x :: r =>
      match p x with
      | Raise e => Raise e
      | Ok b =>
          match filter_res p r with
          | Raise e => Raise e
          | Ok r' => Ok (if b then x :: r' else r')
          end
      end
  end.

(** [d.get(key, default)] on a dictionary literal. *)
Fixpoint dict_get {V} (d : list (string * V)) (key : string) (dflt : V) : V :=
  match d with
  | [] => dflt
  | (k, v) :: r => if bool_decide (k = key) then v else dict_get r key dflt
  end.

(** [l[:n]] for an integer [n]; a negative [n] counts from the end. *)
Definition slice_to {A} (n : Z) (l : list A) : list A :=
  if 0 <=? n then take (Z.to_nat n) l
  else take (length l - Z.to_nat (- n)) l.

(** [s.replace("Z", "+00:00")]. *)
Fixpoint replace_Z (s : string) : string :=
  match s with
  | EmptyString => EmptyString
  | String c r =>
      if bool_decide (c = "Z"%char) then "+00:00" +:+ replace_Z r
      else String c (replace_Z r)
  end.

(** ** [re.findall(r'#\w+', caption)] *)

(** The longest run of word characters at the front of [s]. *)
Fixpoint word_run (is_word : ascii → bool) (s : list ascii) : list ascii :=
  match s with
  | c :: r => if is_word c then c :: word_run is_word r else []
  | [] => []
  end.

(** The matches of [#\w+] in scanning order, each with the index where it
    starts.  [pos] is the index of the head of [s] in the caption and [skip]
    the number of characters of [s] that the previous match still covers
    (the scan resumes behind a match). *)
Fixpoint finditer (is_word : ascii → bool) (s : list ascii) (pos skip : nat)
  : list (nat * list ascii) :=
  match s with
  | [] => []
  | c :: r =>
      match skip with
      | S k => finditer is_word r (S pos) k
      | O =>
          if bool_decide (c = "#"%char) then
            match word_run is_word r with
            | [] => finditer is_word r (S pos) 0
            | w => (pos, c :: w) :: finditer is_word r (S pos) (length w)
            end
          else finditer is_word r (S pos) 0
      end
  end.

Definition findall (is_word : ascii → bool) (s : string) : list string :=
  (λ m, String.string_of_list_ascii (snd m))
    <$> finditer is_word (String.list_ascii_of_string s) 0 0.

(** [', '.join(l)]. *)
Fixpoint join (sep : string) (l : list string) : string :=
  match l with
  | [] => ""
  | [s] => s
  | s :: r => s +:+ sep +:+ join sep r
  end.

(** [list.remove(x)]: drops the first occurrence. *)
Fixpoint list_remove (x : string) (l : list string) : list string :=
  match l with
  | [] => []
  | y :: r => if bool_decide (y = x) then r else y :: list_remove x r
  end.

(** [list.sort(key=key, reverse=reverse)] with integer keys.  Python's sort
    is stable, also with [reverse=True]; it is modelled by the insertion
    sort that puts an element in front of the first later element that does
    not have to precede it. *)
Definition goes_before (reverse : bool) (kx ky : Z) : bool :=
  if reverse then ky <=? kx else kx <=? ky.

Fixpoint sort_insert {A} (key : A → Z) (reverse : bool) (x : A) (l : list A)
  : list A :=
  match l with
  | [] => [x]
  | y :: r =>
      if goes_before reverse (key x) (key y) then x :: y :: r
      else y :: sort_insert key reverse x r
  end.

Fixpoint list_sort {A} (key : A → Z) (reverse : bool) (l : list A) : list A :=
  match l with
  | [] => []
  | x :: r => sort_insert key reverse x (list_sort key reverse r)
  end.

(** The same sort with [datetime] keys.  Its comparisons are ordering
    comparisons of [datetime] objects, and the first one that raises ends
    the sort with its exception.  (A sort cannot order a list without
    comparing, sooner or later, a naive key with an aware one when the list
    holds both; so whether it raises does not depend on the order in which
    it compares.) *)
Definition goes_before_datetime (reverse : bool) (kx ky : datetime) : res bool :=
  match (if reverse then datetime_lt kx ky else datetime_lt ky kx) with
  | Ok b => Ok (negb b)
  | Raise e => Raise e
  end.

Fixpoint sort_insert_datetime {A} (key : A → datetime) (reverse : bool)
    (x : A) (l : list A) : res (list A) :=
  match l with
  | [] => Ok [x]
  | y :: r =>
      match goes_before_datetime reverse (key x) (key y) with
      | Raise e => Raise e
      | Ok true => Ok (x :: y :: r)
      | Ok false =>
          match sort_insert_datetime key reverse x r with
          | Raise e => Raise e
          | Ok r' => Ok (y :: r')
          end
      end
  end.

Fixpoint list_sort_datetime {A} (key : A → datetime) (reverse : bool)
    (l : list A) : res (list A) :=
  match l with
  | [] => Ok []
  | x :: r =>
      match list_sort_datetime key reverse r with
      | Raise e => Raise e
      | Ok r' => sort_insert_datetime key reverse x r'
      end
  end.

(** ** [InstagramAnalytics] *)

Module InstagramAnalytics.

Section Methods.
Context {UC : Unicode}.

(** The attributes of the object that the methods read. *)
Record t : Type := {
  apify_token : string;
  gemini_api_key : string;
  instagram_session_id : string;
  proxy_url : string;
  openai_api_key : string;
  ai_available : bool;
  scraping_available : bool
}.

(** [__init__], up to the presets: the credentials come from the secrets
    manager, and a client is available when its key is set and its set-up
    does not raise. *)
Definition init (env : Env) (api_keys : gmap string string) : M t :=
  let get := SecretsManager.get_secret api_keys in
  ai ← (if truthy_str (get "gemini_api_key") then
          match genai_setup env with
          | Ok _ => mret true
          | Raise e =>
              show Warning ("⚠️ Gemini AI setup failed: " +:+ exn_msg e);;
              mret false
          end
        else mret false);
  sc ← (if truthy_str (get "apify_token") then
          match apify_setup env with
          | Ok _ => mret true
          | Raise e =>
              show Warning ("⚠️ Apify setup failed: " +:+ exn_msg e);;
              mret false
          end
        else mret false);
  mret {| apify_token := get "apify_token";
          gemini_api_key := get "gemini_api_key";
          instagram_session_id := get "instagram_session_id";
          proxy_url := get "proxy_url";
          openai_api_key := get "openai_api_key";
          ai_available := ai;
          scraping_available := sc |}.

(** [item.get(key)] for a loosely typed field, and its truth value. *)
Definition get_truthy (field : option value) : bool :=
  truthy (default VNone field).

Definition _determine_post_type (item : Item.t) : string :=
  if get_truthy (Item.videoUrl item) then "reels"
  else if get_truthy (Item.sidecarMedias item) then "carousels"
  else "posts".

Definition _extract_hashtags (env : Env) (caption : string) : list string :=
  take 5 (findall (word_char env) caption).

(** The [time_filters] dictionary of the live path. *)
Definition time_filters_live : list (string * Z) :=
  [ ("Today", 1); ("48 Hours", 2); ("4 Days", 4); ("Week", 7); ("Month", 30) ].

(** The [time_filters] dictionary of [_get_demo_data]. *)
Definition time_filters_demo : list (string * Z) :=
  [ ("Today", 1); ("48 Hours", 2); ("4 Days", 4); ("Week", 7); ("Month", 30) ].

(** One element of [mock_posts]; [now] is the clock reading of its
    [timestamp] entry. *)
Definition mock_post (hashtags : list string) (post_type : string)
    (i : nat) (now : Z) : Post.t :=
  let n := Z.of_nat i in
  {| Post.id := "post_" +:+ pretty n;
     Post.creator := "designer_" +:+ pretty (n `mod` 10);
     Post.thumbnail := "https://picsum.photos/300/200?random=" +:+ pretty n;
     Post.likes := 1500 + n * 100;
     Post.comments := 45 + n * 5;
     Post.shares := 20 + n * 2;
     Post.views := 5000 + n * 200;
     Post.caption :=
       "Amazing " +:+ match hashtags with h :: _ => h | [] => "design" end
       +:+ " inspiration! Check out this innovative approach to modern design solutions.";
     Post.post_type :=
       if negb (bool_decide (post_type = "all")) then post_type
       else default "" (["posts"; "carousels"; "reels"] !! (i `mod` 3)%nat);
     Post.url := "https://instagram.com/p/mock_" +:+ pretty n;
     Post.timestamp := naive (now - timedelta (n `mod` 30));
     Post.hashtags :=
       match hashtags with [] => ["#design"] | _ => take 3 hashtags end |}.

(** The list comprehension building [mock_posts]: [range(limit)], one clock
    reading per element. *)
Definition mock_posts (env : Env) (hashtags : list string) (post_type : string)
    (limit : Z) : M (list Post.t) :=
  mapM (λ i, now ← datetime_now env; mret (mock_post hashtags post_type i now))
       (seq 0 (Z.to_nat limit)).

Definition _get_demo_data (env : Env) (hashtags : list string)
    (time_filter post_type : string) (limit : Z) : M (list Post.t) :=
  posts ← mock_posts env hashtags post_type limit;
  let days_back := dict_get time_filters_demo time_filter 30 in
  now ← datetime_now env;
  let cutoff_date := naive (now - timedelta days_back) in
  lift (filter_res (λ post, datetime_ge (Post.timestamp post) cutoff_date) posts).

(** The dictionary built for one raw item. *)
Definition post_data (env : Env) (item : Item.t) : M Post.t :=
  ts ← match Item.timestamp item with
        | Some s =>
            if truthy_str s then lift (fromisoformat env (replace_Z s))
            else now ← datetime_now env; mret (naive now)
        | None => now ← datetime_now env; mret (naive now)
        end;
  mret {| Post.id := default "" (Item.id item);
          Post.creator := default "unknown" (Item.ownerUsername item);
          Post.thumbnail := default "" (Item.displayUrl item);
          Post.likes := default 0 (Item.likesCount item);
          Post.comments := default 0 (Item.commentsCount item);
          Post.shares := default 0 (Item.videoViewCount item);
          Post.views := default (default 0 (Item.likesCount item) * 10)
                                (Item.videoViewCount item);
          Post.caption := default "" (Item.caption item);
          Post.post_type := _determine_post_type item;
          Post.url := "https://instagram.com/p/"
                      +:+ default "" (Item.shortCode item);
          Post.timestamp := ts;
          Post.hashtags :=
            _extract_hashtags env (default "" (Item.caption item)) |}.

(** The [actor_input] dictionary, with its [dateFrom] and [proxy] entries. *)
Definition actor_input (self : t) (hashtags : list string) (limit : Z)
    (cutoff_date : Z) : ActorInput :=
  {| ai_hashtags := hashtags;
     ai_resultsLimit := limit;
     ai_searchType := "hashtag";
     ai_addParentData := false;
     ai_dateFrom := cutoff_date;
     ai_proxy := if truthy_str (proxy_url self)
                 then Some (false, [proxy_url self]) else None |}.

(** The body of the [try] block of [scrape_instagram_posts]. *)
Definition scrape_live (env : Env) (self : t) (hashtags : list string)
    (time_filter post_type : string) (limit : Z) : M (list Post.t) :=
  let days_back := dict_get time_filters_live time_filter 30 in
  now ← datetime_now env;
  let cutoff_date := now - timedelta days_back in
  items ← actor_call env (actor_input self hashtags limit cutoff_date);
  posts_data ← mapM (post_data env) items;
  let posts_data :=
    if negb (bool_decide (post_type = "all"))
    then filter (λ post, lower (Post.post_type post) = post_type) posts_data
    else posts_data in
  mret (slice_to limit posts_data).

Definition scrape_instagram_posts (env : Env) (self : t)
    (hashtags : list string) (time_filter post_type : string) (limit : Z)
  : M (list Post.t) :=
  if negb (scraping_available self) then
    show Warning "⚠️ Apify not configured. Using demo data.";;
    _get_demo_data env hashtags time_filter post_type limit
  else
    try_except
      (scrape_live env self hashtags time_filter post_type limit)
      (λ e, show Error ("❌ Scraping failed: " +:+ exn_msg e);;
            _get_demo_data env hashtags time_filter post_type limit).

(** The prompt of [analyze_with_gemini]. *)
Definition prompt (caption : string) (hashtags : list string) : string :=
  let ind := "            " in
  let field name text :=
    ind +:+ "    " +:+ dq +:+ name +:+ dq +:+ ": " +:+ text in
  nl +:+ ind +:+ "Analyze this Instagram post:" +:+ nl
  +:+ ind +:+ "Caption: " +:+ caption +:+ nl
  +:+ ind +:+ "Hashtags: " +:+ join ", " hashtags +:+ nl
  +:+ ind +:+ nl
  +:+ ind +:+ "Provide analysis in JSON format:" +:+ nl
  +:+ ind +:+ "{" +:+ nl
  +:+ field "category" (dq +:+ "Tech/UI-UX/Product Design/AI/Other" +:+ dq +:+ ",") +:+ nl
  +:+ field "sentiment" (dq +:+ "Positive/Neutral/Negative" +:+ dq +:+ ",") +:+ nl
  +:+ field "engagement_prediction" (dq +:+ "High/Medium/Low" +:+ dq +:+ ",") +:+ nl
  +:+ field "content_quality" "<score 0-100>," +:+ nl
  +:+ field "trending_potential" "<score 0-100>" +:+ nl
  +:+ ind +:+ "}" +:+ nl
  +:+ ind.

Definition analyze_with_gemini (env : Env) (self : t) (caption : string)
    (hashtags : list string) : M value :=
  if negb (ai_available self) then
    mret (VDict [ ("category", VStr "General");
                  ("sentiment", VStr "Positive");
                  ("engagement_prediction", VStr "Medium");
                  ("content_quality", VInt 75);
                  ("trending_potential", VInt 60) ])
  else
    try_except
      (text ← model_generate_content env (prompt caption hashtags);
       lift (json_loads env text))
      (λ e, show Warning ("⚠️ AI analysis failed: " +:+ exn_msg e);;
            mret (VDict [ ("category", VStr "General");
                          ("sentiment", VStr "Positive");
                          ("engagement_prediction", VStr "Medium");
                          ("content_quality", VInt 75);
                          ("trending_potential", VInt 60) ])).

Definition set_bookmarks (l : list string) (w : World) : World :=
  {| clock_reads := clock_reads w; actor_runs := actor_runs w;
     model_calls := model_calls w; notices := notices w; bookmarks := l |}.

Definition bookmark_post (post_id : string) : M unit :=
  λ w, if negb (bool_decide (post_id ∈ bookmarks w))
       then show Success "Post bookmarked!"
                 (set_bookmarks (bookmarks w ++ [post_id]) w)
       else show Success "Bookmark removed!"
                 (set_bookmarks (list_remove post_id (bookmarks w)) w).

(** The sort of [main], selected by the value of the [Sort By] box.  The
    four counters are integers; the timestamps are [datetime] objects. *)
Definition sort_posts (sort_by : string) (posts : list Post.t)
  : res (list Post.t) :=
  if bool_decide (sort_by = "Likes") then Ok (list_sort Post.likes true posts)
  else if bool_decide (sort_by = "Comments")
  then Ok (list_sort Post.comments true posts)
  else if bool_decide (sort_by = "Shares")
  then Ok (list_sort Post.shares true posts)
  else if bool_decide (sort_by = "Views") then Ok (list_sort Post.views true posts)
  else if bool_decide (sort_by = "Recent")
  then list_sort_datetime Post.timestamp true posts
  else Ok posts.

End Methods.

End InstagramAnalytics.

(** ** Vocabulary of the statements and concrete inputs *)

(** A resolver scenario: [APIFY_TOKEN=X] in the environment, [apify_token: Y]
    in the config file, no hosted store and no secrets file. *)
Definition scenario_sources : SecretsManager.Sources :=
  {| SecretsManager.st_secrets := None;
     SecretsManager.os_environ := {[ "APIFY_TOKEN" := "X" ]};
     SecretsManager.secrets_toml := None;
     SecretsManager.config_yaml := Some {[ "apify_token" := "Y" ]} |}.

(** A field of a raw item that is present with a true value. *)
Definition present_true (field : option value) : Prop :=
  ∃ v, field = Some v ∧ truthy v = true.

(** An item with all fields missing. *)
Definition empty_item : Item.t :=
  {| Item.id := None; Item.ownerUsername := None; Item.displayUrl := None;
     Item.likesCount := None; Item.commentsCount := None;
     Item.videoViewCount := None; Item.caption := None;
     Item.videoUrl := None; Item.sidecarMedias := None;
     Item.shortCode := None; Item.timestamp := None |}.

Definition with_media (video sidecar : option value) : Item.t :=
  {| Item.id := None; Item.ownerUsername := None; Item.displayUrl := None;
     Item.likesCount := None; Item.commentsCount := None;
     Item.videoViewCount := None; Item.caption := None;
     Item.videoUrl := video; Item.sidecarMedias := sidecar;
     Item.shortCode := None; Item.timestamp := None |}.


(** Descending order of a list by a key. *)
Definition descending {A} (key : A → Z) (l : list A) : Prop :=
  StronglySorted (λ x y, key y ≤ key x) l.

(** The records of [l] whose key is [k], in the order they have in [l]. *)
Definition with_key {A} (key : A → Z) (k : Z) (l : list A) : list A :=
  filter (λ x, key x = k) l.

(** The bookmark list read as a set of identifiers. *)
Definition bookmark_set (w : World) : gset string := list_to_set (bookmarks w).

(** A session with nothing in it. *)
Definition fresh_world : World :=
  {| clock_reads := 0; actor_runs := 0; model_calls := 0;
     notices := []; bookmarks := [] |}.

(** A post with the given counters and a naive timestamp. *)
Definition sample_post (name : string) (likes ts : Z) : Post.t :=
  {| Post.id := name; Post.creator := "c"; Post.thumbnail := "";
     Post.likes := likes; Post.comments := 0; Post.shares := 0;
     Post.views := 0; Post.caption := ""; Post.post_type := "posts";
     Post.url := ""; Post.timestamp := naive ts; Post.hashtags := [] |}.

(** The word characters of ASCII, a choice of [\w] for examples. *)
Definition ascii_word (c : ascii) : bool :=
  let n := nat_of_ascii c in
  (((48 <=? n) && (n <=? 57)) || ((65 <=? n) && (n <=? 90))
   || ((97 <=? n) && (n <=? 122)) || (n =? 95))%nat.

(** A hashtag token: [#] followed by one or more word characters. *)
Definition is_hashtag (is_word : ascii → bool) (t : string) : Prop :=
  ∃ w, t = String "#"%char w ∧ w ≠ ""
       ∧ Forall (λ c, is_word c = true) (String.list_ascii_of_string w).

(** Occurrences [(start, token)] listed from left to right without overlap:
    each starts at or after [pos], the next one behind its end. *)
Fixpoint left_to_right (pos : nat) (occ : list (nat * string)) : Prop :=
  match occ with
  | [] => True
  | (p, t) :: r => (pos ≤ p)%nat ∧ left_to_right (p + String.length t) r
  end.

(** [t] is what the caption holds at index [p]. *)
Definition occurs_at (caption : string) (m : nat * string) : Prop :=
  String.substring m.1 (String.length m.2) caption = m.2.

(** The same predicates on character lists, where the scan works. *)
Fixpoint left_to_right_l (pos : nat) (occ : list (nat * list ascii)) : Prop :=
  match occ with
  | [] => True
  | (p, t) :: r => (pos ≤ p)%nat ∧ left_to_right_l (p + length t) r
  end.

(** Every match is a token and is what [s] holds at its start. *)
Definition match_ok (is_word : ascii → bool) (s : list ascii) (pos : nat)
    (m : nat * list ascii) : Prop :=
  (pos ≤ m.1)%nat
  ∧ take (length m.2) (drop (m.1 - pos) s) = m.2
  ∧ ∃ w, m.2 = "#"%char :: w ∧ w ≠ [] ∧ Forall (λ c, is_word c = true) w.

(** The session after [n] more clock readings, after one more run of the
    scraping actor, after one more call of the AI model, and after one more
    notice. *)
Definition tick (n : nat) (w : World) : World :=
  {| clock_reads := clock_reads w + n; actor_runs := actor_runs w;
     model_calls := model_calls w; notices := notices w;
     bookmarks := bookmarks w |}.

Definition ran_actor (w : World) : World :=
  {| clock_reads := clock_reads w; actor_runs := S (actor_runs w);
     model_calls := model_calls w; notices := notices w;
     bookmarks := bookmarks w |}.

Definition called_model (w : World) : World :=
  {| clock_reads := clock_reads w; actor_runs := actor_runs w;
     model_calls := S (model_calls w); notices := notices w;
     bookmarks := bookmarks w |}.

Definition notified (n : notice) (w : World) : World :=
  {| clock_reads := clock_reads w; actor_runs := actor_runs w;
     model_calls := model_calls w; notices := notices w ++ [n];
     bookmarks := bookmarks w |}.

(** The list a computation returned ([[]] when it raised). *)
Definition returned {A} (r : res (list A) * World) : list A :=
  match r.1 with Ok l => l | Raise _ => [] end.

(** The number of days each time window stands for. *)
Definition days (time_filter : string) : Z :=
  if bool_decide (time_filter = "Today") then 1
  else if bool_decide (time_filter = "48 Hours") then 2
  else if bool_decide (time_filter = "4 Days") then 4
  else if bool_decide (time_filter = "Week") then 7
  else 30.

(** The cut-off rule: a record with timestamp [ts] is retained at clock
    reading [now] when [ts >= now - days(window)]. *)
Definition retained (now : Z) (time_filter : string) (ts : Z) : Prop :=
  now - timedelta (days time_filter) ≤ ts.

#[global] Instance retained_dec now time_filter ts :
  Decision (retained now time_filter ts) := Z.le_dec _ _.

(** The kinds of the demo records, by index. *)
Definition demo_kind (i : nat) : string :=
  match (i `mod` 3)%nat with
  | O => "posts"
  | S O => "carousels"
  | _ => "reels"
  end.

(** The default classification. *)
Definition default_classification : value :=
  VDict [ ("category", VStr "General");
          ("sentiment", VStr "Positive");
          ("engagement_prediction", VStr "Medium");
          ("content_quality", VInt 75);
          ("trending_potential", VInt 60) ].

(** An object without credentials, and one with both clients set up. *)
Definition unconfigured : InstagramAnalytics.t :=
  {| InstagramAnalytics.apify_token := "";
     InstagramAnalytics.gemini_api_key := "";
     InstagramAnalytics.instagram_session_id := "";
     InstagramAnalytics.proxy_url := "";
     InstagramAnalytics.openai_api_key := "";
     InstagramAnalytics.ai_available := false;
     InstagramAnalytics.scraping_available := false |}.

Definition configured : InstagramAnalytics.t :=
  {| InstagramAnalytics.apify_token := "token";
     InstagramAnalytics.gemini_api_key := "key";
     InstagramAnalytics.instagram_session_id := "";
     InstagramAnalytics.proxy_url := "";
     InstagramAnalytics.openai_api_key := "";
     InstagramAnalytics.ai_available := true;
     InstagramAnalytics.scraping_available := true |}.

(** Outside worlds for the examples.  In all of them both providers are
    out of reach, one ISO text parses (the second day of 1970 at offset
    zero, instants counting from the first day) and no text is JSON.
    [world_of clock items] has the given clock, and its scraping provider
    returns [items] when [items] is given and fails otherwise. *)
Definition world_of (clock : nat → Z) (items : option (list Item.t)) : Env :=
  {| clock := clock;
     actor := λ _ _, match items with
                     | Some l => Ok l
                     | None => Raise (Exn "ApifyApiError" "actor run failed")
                     end;
     generate_content := λ _ _, Raise (Exn "ResourceExhausted" "quota exceeded");
     fromisoformat := λ s,
       if bool_decide (s = "1970-01-02T00:00:00+00:00")
       then Ok (DateTime (timedelta 1) true)
       else Raise (Exn "ValueError" "Invalid isoformat string");
     json_loads := λ _, Raise (Exn "JSONDecodeError" "Expecting value");
     word_char := ascii_word;
     genai_setup := Ok ();
     apify_setup := Ok () |}.

(** A clock that stands still at day 100. *)
Definition still_clock : nat → Z := λ _, timedelta 100.

(** A clock that is set forward by two days after its first reading. *)
Definition adjusted_clock : nat → Z :=
  λ k, match k with O => timedelta 100 | S _ => timedelta 102 end.

(** The records of [mock_posts], given the session they are built in. *)
Definition mock_list (env : Env) (hashtags : list string) (post_type : string)
    (n : nat) (w : World) : list Post.t :=
  (λ i, InstagramAnalytics.mock_post hashtags post_type i (clock env (clock_reads w + i)))
    <$> seq 0 n.

(** A raw item dated on the second day of 1970, all other fields missing. *)
Definition old_item : Item.t :=
  {| Item.id := None; Item.ownerUsername := None; Item.displayUrl := None;
     Item.likesCount := None; Item.commentsCount := None;
     Item.videoViewCount := None; Item.caption := None;
     Item.videoUrl := None; Item.sidecarMedias := None;
     Item.shortCode := None; Item.timestamp := Some "1970-01-02T00:00:00Z" |}.

(** The kind filter of the live path. *)
Definition kind_filter {UC : Unicode} (post_type : string)
    (posts : list Post.t) : list Post.t :=
  if negb (bool_decide (post_type = "all"))
  then filter (λ post, lower (Post.post_type post) = post_type) posts
  else posts.

(** The notice shown when the try block of the fetch raises [e], and the
    one shown when the classifier's does. *)
Definition scraping_failed (e : exn) : notice :=
  Notice Error ("❌ Scraping failed: " +:+ exn_msg e).

Definition analysis_failed (e : exn) : notice :=
  Notice Warning ("⚠️ AI analysis failed: " +:+ exn_msg e).

(** The input of the actor run that a live fetch starts from session [w]. *)
Definition live_input (env : Env) (self : InstagramAnalytics.t)
    (hashtags : list string) (time_filter : string) (limit : Z) (w : World)
  : ActorInput :=
  InstagramAnalytics.actor_input self hashtags limit
    (clock env (clock_reads w)
     - timedelta (dict_get InstagramAnalytics.time_filters_live time_filter 30)).

(** The file each format is saved to, and the text saved. *)
Definition target (file_type : string) : FS.path :=
  if bool_decide (file_type = "toml") then SecretsManager.secrets_file
  else if bool_decide (file_type = "env") then SecretsManager.env_file
  else SecretsManager.config_file.

Definition saved_text {UC : Unicode} (yaml_dump : value → string)
    (secrets_dict : list (string * string)) (file_type : string) : string :=
  if bool_decide (file_type = "toml") then SecretsManager.toml_content secrets_dict
  else if bool_decide (file_type = "env") then SecretsManager.env_content secrets_dict
  else yaml_dump
         (VDict [ ("api_keys", VDict (prod_map id VStr <$> secrets_dict));
                  ("app_settings",
                   VDict [ ("debug_mode", VBool false);
                           ("cache_enabled", VBool true);
                           ("max_posts_per_request", VInt 100) ]) ]).

(** The directory the save makes sure of before it writes: [.streamlit]
    for the key-value format, none for the two files of the working
    directory. *)
Definition prepare (file_type : string) (fs : FS.t) : res unit * FS.t :=
  if bool_decide (file_type = "toml") then FS.mkdir_exist_ok ".streamlit" fs
  else (Ok (), fs).

(** An empty working directory on a device with room for [n] characters. *)
Definition small_disk (n : nat) : FS.t :=
  {| FS.dirs := ∅; FS.files := ∅; FS.denied := ∅; FS.room := n |}.

(** A stand-in for [yaml.dump] in examples. *)
Definition no_yaml : value → string := λ _, "".


(** A working directory that already holds credentials in both line
    formats. *)
Definition used_disk : FS.t :=
  {| FS.dirs := {[ ".streamlit" ]};
     FS.files := {[ ".streamlit/secrets.toml" := "APIFY_TOKEN = old";
                    ".env" := "APIFY_TOKEN=old" ]};
     FS.denied := ∅; FS.room := 1000 |}.


(** A clock that never goes back, and a clock that shows [now] at every
    reading. *)
Definition monotone (clock : nat → Z) : Prop :=
  ∀ i j, (i ≤ j)%nat → clock i ≤ clock j.

Definition shows (clock : nat → Z) (now : Z) : Prop := ∀ i, clock i = now.


(** An outside world whose AI model answers every prompt with [text], which
    [json.loads] reads as [parsed]. *)
Definition answering (text : string) (parsed : res value) : Env :=
  {| clock := still_clock;
     actor := λ _ _, Ok [];
     generate_content := λ _ _, Ok text;
     fromisoformat := λ _, Raise (Exn "ValueError" "Invalid isoformat string");
     json_loads := λ _, parsed;
     word_char := ascii_word;
     genai_setup := Ok ();
     apify_setup := Ok () |}.


(** ** Parts of [main] *)

(** The posts shown in the bookmarks panel:
    [[post for post in posts_data if post['id'] in bookmarks]]. *)
Definition bookmarked_posts (posts_data : list Post.t) (w : World) : list Post.t :=
  filter (λ post, Post.id post ∈ bookmarks w) posts_data.

(** The session after the bookmark button was pressed for each of [ids] in
    turn, starting with no bookmarks, and the number of times [x] was among
    them. *)
Definition toggled (ids : list string) : World :=
  foldl (λ w i, (InstagramAnalytics.bookmark_post i w).2) fresh_world ids.

Definition times (x : string) (ids : list string) : nat :=
  length (filter (λ y, y = x) ids).


(** [max(l, key=key)] on a list known to start with [best]: the first of
    the items with the largest key. *)
Fixpoint max_from {A} (key : A → Z) (best : A) (l : list A) : A :=
  match l with
  | [] => best
  | x :: r => max_from key (if key best <? key x then x else best) r
  end.

(** [max(l, key=key)], which raises on the empty list ([None]). *)
Definition py_max {A} (key : A → Z) (l : list A) : option A :=
  match l with
  | [] => None
  | x :: r => Some (max_from key x r)
  end.

(** The figures of the metrics row.  The two averages shown are the
    quotients of [sum_likes] and [sum_engagement] by [total_posts]. *)
Record Metrics : Type := {
  total_posts : nat;
  sum_likes : Z;
  sum_engagement : Z;
  top_creator : string
}.

Definition sum_of (f : Post.t → Z) (posts : list Post.t) : Z :=
  foldr (λ post acc, f post + acc) 0 posts.

(** The block under [if st.session_state.posts_data:]; [None] when the list
    is empty and the block is skipped. *)
Definition metrics (posts_data : list Post.t) : option Metrics :=
  match py_max Post.likes posts_data with
  | None => None
  | Some top =>
      Some {| total_posts := length posts_data;
              sum_likes := sum_of Post.likes posts_data;
              sum_engagement :=
                sum_of (λ post, Post.likes post + Post.comments post
                                + Post.shares post) posts_data;
              top_creator := Post.creator top |}
  end.


(** ** The hashtag presets of [InstagramAnalytics] *)

(** [self.hashtag_presets]. *)
Definition hashtag_presets : list (string * list string) :=
  [ ("Tech",
     ["#tech"; "#technology"; "#ai"; "#machinelearning"; "#coding";
      "#programming"; "#developer"; "#software"; "#innovation"; "#startup";
      "#techtrends"; "#digitaltransformation"]);
    ("UI/UX Design",
     ["#ux"; "#ui"; "#design"; "#userexperience"; "#webdesign"; "#appdesign";
      "#designthinking"; "#prototype"; "#wireframe"; "#figma"; "#sketch";
      "#adobe"]);
    ("Product Design",
     ["#productdesign"; "#industrialdesign"; "#design"; "#innovation";
      "#designprocess"; "#prototype"; "#usercentered"; "#designstrategy"]);
    ("AI",
     ["#ai"; "#artificialintelligence"; "#machinelearning"; "#deeplearning";
      "#chatgpt"; "#automation"; "#neural"; "#algorithm"; "#aiart";
      "#generativeai"]) ].

(** [sorted(l)] on strings, which Python compares character by character. *)
Definition sorted (l : list string) : list string := merge_sort String.le l.

(** [get_all_hashtags], for any presets: the values are concatenated, made
    a set (whose order of iteration is not specified) and sorted. *)
Definition get_all_hashtags (presets : list (string * list string))
  : list string :=
  sorted (elements (list_to_set (mjoin (snd <$> presets)) : gset string)).

(** The preselected hashtags of the multiselect in [main]. *)
Definition default_hashtags : list string := ["#ui"; "#design"; "#tech"].


(** ** [SecretsManager.test_api_keys] *)

(** The two services the key test talks to: [requests.get url headers],
    answering with a status code or raising, and the Gemini round trip
    ([genai.configure], [GenerativeModel], [generate_content("Hello")]) for
    an API key, which raises or not. *)
Record Network : Type := {
  requests_get : string → string → res Z;
  gemini_hello : string → res unit
}.

(** What one key test did: the [results] dictionary, the services it
    contacted (with the authorization header or key it sent), and the
    markdown lines it showed. *)
Record KeyTest : Type := {
  results : list (string * string);
  contacted : list (string * string);
  shown : list string
}.

Definition apify_users_me : string := "https://api.apify.com/v2/users/me".

Definition test_api_keys {UC : Unicode} (net : Network)
    (api_keys : gmap string string)
  : KeyTest :=
  let token := SecretsManager.get_secret api_keys "apify_token" in
  let key := SecretsManager.get_secret api_keys "gemini_api_key" in
  let apify :=
    if truthy_str token then
      match requests_get net apify_users_me ("Bearer " +:+ token) with
      | Ok status_code =>
          if status_code =? 200 then "✅ Valid" else "❌ Invalid"
      | Raise _ => "❌ Connection Error"
      end
    else "⚠️ Not Set" in
  let gemini :=
    if truthy_str key then
      match gemini_hello net key with
      | Ok _ => "✅ Valid"
      | Raise _ => "❌ Invalid"
      end
    else "⚠️ Not Set" in
  let results := [("Apify", apify); ("Gemini", gemini)] in
  {| results := results;
     contacted :=
       (if truthy_str token then [(apify_users_me, "Bearer " +:+ token)] else [])
       ++ (if truthy_str key then [("gemini-pro", key)] else []);
     shown :=
       "### 🧪 API Key Test Results"
       :: ((λ '(service, status), "**" +:+ service +:+ "**: " +:+ status)
             <$> results) |}.

(** A network on which every request fails to connect. *)
Definition offline : Network :=
  {| requests_get := λ _ _, Raise (Exn "ConnectionError" "no route to host");
     gemini_hello := λ _, Raise (Exn "ServiceUnavailable" "no route to host") |}.


(** The kind filter that [main] passes on for a choice of the Content Type
    box: [post_type.lower() if post_type != "All" else "all"]. *)
Definition ui_post_type {UC : Unicode} (post_type : string) : string :=
  if negb (bool_decide (post_type = "All")) then lower post_type else "all".

(** The fetch of [main] followed by its sort; the result is what is stored
    in [st.session_state.posts_data].  Neither is inside a [try]: an
    exception of the sort leaves [main] and nothing is stored. *)
Definition load_posts {UC : Unicode} (env : Env) (self : InstagramAnalytics.t)
    (selected_hashtags : list string) (time_filter post_type sort_by : string)
    (post_limit : Z) : M (list Post.t) :=
  posts ← InstagramAnalytics.scrape_instagram_posts env self selected_hashtags
             time_filter (ui_post_type post_type) post_limit;
  lift (InstagramAnalytics.sort_posts sort_by posts).




(** ** Start-up *)



(** ** Timestamps with and without offset *)

(** A list of [datetime] objects is mixed when it holds an aware and a
    naive one; [mixed_timestamps] says so of the timestamps of posts. *)
Definition mixed (l : list datetime) : bool :=
  existsb aware l && existsb (λ d, negb (aware d)) l.



(** ** A case mapping for the examples *)

(** A case mapping that leaves text outside ASCII as it is.  The examples
    below hold ASCII text only, on which every case mapping agrees. *)
Definition plain_case : Unicode :=
  {| unicode_lower := λ s, s; unicode_upper := λ s, s |}.


(** A case mapping that agrees with the Unicode database on the German
    sharp s, whose upper case is [SS], and leaves other text as it is. *)
Definition sharp_s_case : Unicode :=
  {| unicode_lower := λ s, s;
     unicode_upper := λ s, if bool_decide (s = "ß") then "SS" else s |}.

(** * Properties *)

(** ** Secrets resolver *)

Section Resolver.
Context {UC : Unicode}.
Import SecretsManager.

Implicit Types (acc : gmap string string) (src : Sources).

Lemma truthy_str_spec (s : string) : truthy_str s = true ↔ s ≠ "".
Proof. destruct s; simpl; split; congruence. Qed.

Lemma get_truthy_get_str acc (k : string) :
  Py.get_truthy acc k = truthy_str (get_str acc k).
Proof. unfold Py.get_truthy, get_str. destruct (acc !! k); reflexivity. Qed.

Lemma first_nonempty_pair (a b : string) :
  first_nonempty [a; b] = if truthy_str a then a else b.
Proof. simpl. destruct (truthy_str a), b; reflexivity. Qed.

(** Reading a key after one guarded assignment. *)
Lemma get_str_fill acc (key value k : string) :
  get_str (fill acc key value) k =
  if bool_decide (key = k) then first_nonempty [get_str acc k; value]
  else get_str acc k.
Proof.
  unfold fill. rewrite first_nonempty_pair, get_truthy_get_str.
  case_bool_decide as Hk.
  - subst k. destruct (truthy_str value) eqn:Hv; simpl.
    + destruct (truthy_str (get_str acc key)) eqn:Ha; simpl; [done|].
      unfold get_str. by rewrite lookup_insert_eq.
    + destruct (truthy_str (get_str acc key)) eqn:Ha; [done|].
      destruct value; [|done]. by destruct (get_str acc key).
  - destruct (_ && _); [|done]. unfold get_str. by rewrite lookup_insert_ne.
Qed.

(** A guarded assignment leaves a non-empty entry alone. *)
Lemma fill_keeps acc (key value k v : string) :
  acc !! k = Some v → v ≠ "" → fill acc key value !! k = Some v.
Proof.
  intros Hk Hv. unfold fill.
  destruct (decide (key = k)) as [->|Hne].
  - unfold Py.get_truthy. rewrite Hk.
    apply truthy_str_spec in Hv. rewrite Hv, andb_false_r. done.
  - destruct (_ && _); [|done]. by rewrite lookup_insert_ne.
Qed.

Lemma load_env_keeps src acc (k v : string) :
  acc !! k = Some v → v ≠ "" → load_env src acc !! k = Some v.
Proof.
  unfold load_env. generalize (env_keys src). intros l. revert acc.
  induction l as [|[key value] l IH]; intros acc Hk Hv; [done|].
  simpl. apply IH; [|done]. by apply fill_keeps.
Qed.

Lemma load_toml_keeps src acc (k v : string) :
  acc !! k = Some v → v ≠ "" → load_toml src acc !! k = Some v.
Proof.
  unfold load_toml. destruct (secrets_toml src) as [data|]; [|done].
  generalize (credential_names.*1). intros l. revert acc.
  induction l as [|key l IH]; intros acc Hk Hv; [done|].
  simpl. apply IH; [|done].
  destruct (data !! key) as [x|]; [|done].
  destruct (decide (lower key = k)) as [->|Hne].
  - unfold Py.get_truthy. rewrite Hk.
    apply truthy_str_spec in Hv. by rewrite Hv.
  - destruct (negb _); [|done]. by rewrite lookup_insert_ne.
Qed.

Lemma load_yaml_keeps src acc (k v : string) :
  acc !! k = Some v → v ≠ "" → load_yaml src acc !! k = Some v.
Proof.
  intros Hk Hv. unfold load_yaml.
  destruct (config_yaml src) as [sect|]; [|done].
  apply (map_fold_weak_ind (λ r _, r !! k = Some v)); [done|].
  intros i x m r _ Hr. by apply fill_keeps.
Qed.

Lemma get_str_empty (k : string) : get_str ∅ k = "".
Proof. unfold get_str. by rewrite lookup_empty. Qed.

Lemma get_str_insert acc (i k v : string) :
  get_str (<[i := v]> acc) k = if bool_decide (i = k) then v else get_str acc k.
Proof.
  unfold get_str. case_bool_decide as Hk.
  - subst. by rewrite lookup_insert_eq.
  - by rewrite lookup_insert_ne.
Qed.

Lemma first_nonempty_empty_r (a : string) : first_nonempty [a; ""] = a.
Proof. rewrite first_nonempty_pair. by destruct a. Qed.

(** What the section of the config file contributes to every key. *)
Lemma load_yaml_get_str src acc (k : string) :
  get_str (load_yaml src acc) k = first_nonempty [get_str acc k; from_yaml src k].
Proof.
  unfold load_yaml, from_yaml.
  destruct (config_yaml src) as [sect|].
  - revert k.
    apply (map_fold_weak_ind
             (λ r m, ∀ k, get_str r k = first_nonempty [get_str acc k; get_str m k])).
    + intros k. by rewrite get_str_empty, first_nonempty_empty_r.
    + intros i x m r Hi IH k. rewrite get_str_fill, IH, get_str_insert.
      case_bool_decide as Hk; [|done].
      subst k. unfold get_str at 2. rewrite Hi. simpl default.
      rewrite first_nonempty_empty_r. done.
  - by rewrite first_nonempty_empty_r.
Qed.

(** Case analysis on the five credentials. *)
Ltac each_credential H :=
  unfold credential_names in H;
  repeat (apply elem_of_cons in H as [H|H]; [injection H as -> ->|]);
  [..|by apply elem_of_nil in H].

Lemma load_streamlit_get_str src acc (K k : string) :
  (K, k) ∈ credential_names →
  get_str (load_streamlit src acc) k =
  match st_secrets src with
  | Some m => get_str m K
  | None => get_str acc k
  end.
Proof.
  intros H. unfold load_streamlit.
  destruct (st_secrets src) as [m|]; [|done].
  each_credential H; cbn [foldl credential_names];
    rewrite !get_str_insert; reflexivity.
Qed.

Lemma load_env_get_str src acc (K k : string) :
  (K, k) ∈ credential_names →
  get_str (load_env src acc) k = first_nonempty [get_str acc k; from_env src K].
Proof.
  intros H. unfold load_env, env_keys, from_env.
  each_credential H; cbn [foldl credential_names fmap list_fmap];
    rewrite !get_str_fill; reflexivity.
Qed.

Lemma load_toml_get_str src acc (K k : string) :
  (K, k) ∈ credential_names →
  get_str (load_toml src acc) k = first_nonempty [get_str acc k; from_toml src K].
Proof.
  intros H. unfold load_toml, from_toml.
  destruct (secrets_toml src) as [data|];
    [|by rewrite first_nonempty_empty_r].
  assert (∀ acc' (key : string),
    get_str (match data !! key with
             | Some v => if negb (Py.get_truthy acc' (lower key))
                         then <[lower key := v]> acc' else acc'
             | None => acc'
             end) k =
    if bool_decide (lower key = k)
    then first_nonempty [get_str acc' k; get_str data key]
    else get_str acc' k) as Hstep.
  { intros acc' key. rewrite first_nonempty_pair, get_truthy_get_str.
    change (get_str data key) with (default "" (data !! key)).
    destruct (data !! key) as [v|]; simpl default.
    - case_bool_decide as Hk.
      + subst k. destruct (truthy_str (get_str acc' (lower key))); simpl; [done|].
        rewrite get_str_insert. by rewrite bool_decide_eq_true_2.
      + destruct (negb _); [|done]. rewrite get_str_insert.
        by rewrite bool_decide_eq_false_2.
    - case_bool_decide as Hk; [|done]. subst k.
      destruct (truthy_str (get_str acc' (lower key))) eqn:E; [done|].
      by destruct (get_str acc' (lower key)). }
  each_credential H; cbn [foldl credential_names fmap list_fmap fst];
    rewrite !Hstep; reflexivity.
Qed.

Lemma first_nonempty_flatten (a b c d : string) :
  first_nonempty [first_nonempty [first_nonempty [a; b]; c]; d]
  = first_nonempty [a; b; c; d].
Proof.
  destruct a, b, c, d; reflexivity.
Qed.

Lemma lower_credential (K k : string) :
  (K, k) ∈ credential_names → lower k = k ∧ lower K = k.
Proof. intros H. each_credential H; split; reflexivity. Qed.

(** The credential set of a fresh manager, key by key. *)
Lemma init_get_secret src (K k : string) :
  (K, k) ∈ credential_names →
  get_secret (init src) k =
  first_nonempty [from_streamlit src K; from_env src K;
                  from_toml src K; from_yaml src k].
Proof.
  intros H. unfold get_secret, init, load_secrets.
  destruct (lower_credential K k H) as [-> _].
  rewrite load_yaml_get_str, (load_toml_get_str _ _ K), (load_env_get_str _ _ K),
    (load_streamlit_get_str _ _ K), first_nonempty_flatten by done.
  unfold from_streamlit. destruct (st_secrets src); [done|].
  by rewrite get_str_empty.
Qed.

(** C1. For each of the five credentials, the value a fresh secrets manager
    resolves is the first non-empty value among what the hosted secret store,
    the process environment, the local secrets file and the config file
    yield, in that order.  The three later sources never change an entry that
    is already non-empty.  In particular a value set in the environment wins
    over the config file (and over the secrets file) when the hosted store
    yields nothing. *)
Theorem load_secrets_first_nonempty src (K k : string) :
  (K, k) ∈ credential_names →
  get_secret (init src) k =
    first_nonempty [from_streamlit src K; from_env src K;
                    from_toml src K; from_yaml src k]
  ∧ (∀ acc (v : string), acc !! k = Some v → v ≠ "" →
       load_env src acc !! k = Some v
       ∧ load_toml src acc !! k = Some v
       ∧ load_yaml src acc !! k = Some v)
  ∧ (from_streamlit src K = "" → from_env src K ≠ "" →
       get_secret (init src) k = from_env src K).
Proof.
  intros H. split; [by apply init_get_secret|]. split.
  - intros acc v Hk Hv. split; [by apply load_env_keeps|].
    split; [by apply load_toml_keeps | by apply load_yaml_keeps].
  - intros Hs He. rewrite (init_get_secret _ K) by done. simpl. rewrite Hs. simpl.
    apply truthy_str_spec in He. by rewrite He.
Qed.

End Resolver.

Section Examples1.
#[local] Existing Instance plain_case.

Lemma load_secrets_first_nonempty_witness :
  ("APIFY_TOKEN", "apify_token") ∈ SecretsManager.credential_names
  ∧ SecretsManager.get_secret (SecretsManager.init scenario_sources) "apify_token" = "X".
Proof.
  assert (("APIFY_TOKEN", "apify_token") ∈ SecretsManager.credential_names) as H
    by apply list_elem_of_here.
  split; [exact H|].
  destruct (load_secrets_first_nonempty scenario_sources _ _ H) as (_ & _ & Henv).
  apply Henv; [reflexivity | discriminate].
Defined.

(** Outside C1: [load_secrets] run again on a manager that already holds
    values (the Reload button) keeps an old non-empty value when the hosted
    store cannot be read, whatever the sources say by then. *)
Remark reload_keeps_old_value :
  let old := SecretsManager.init scenario_sources in
  let src' :=
    {| SecretsManager.st_secrets := None;
       SecretsManager.os_environ := ∅;
       SecretsManager.secrets_toml := None;
       SecretsManager.config_yaml := Some {[ "apify_token" := "Y" ]} |} in
  SecretsManager.get_secret (SecretsManager.load_secrets src' old) "apify_token" = "X"
  ∧ SecretsManager.get_secret (SecretsManager.init src') "apify_token" = "Y".
Proof. split; vm_compute; reflexivity. Qed.

End Examples1.


(** ** Post kind *)

Section PostKind.
Import InstagramAnalytics.

Lemma get_truthy_present (field : option value) :
  get_truthy field = true ↔ present_true field.
Proof.
  unfold get_truthy, present_true. split.
  - destruct field as [v|]; simpl; [eauto | discriminate].
  - by intros (v & -> & Hv).
Qed.

(** C7, as the code has it.  A raw item is a reel when its [videoUrl] is
    present with a true value (a non-empty string), whatever its other
    fields; otherwise a carousel when its [sidecarMedias] is present with a
    true value (a non-empty list); otherwise a plain post.  In particular an
    item with neither field is a post. *)
Theorem determine_post_type_precedence (item : Item.t) :
  (present_true (Item.videoUrl item) → _determine_post_type item = "reels")
  ∧ (¬ present_true (Item.videoUrl item) →
     present_true (Item.sidecarMedias item) →
     _determine_post_type item = "carousels")
  ∧ (¬ present_true (Item.videoUrl item) →
     ¬ present_true (Item.sidecarMedias item) →
     _determine_post_type item = "posts")
  ∧ (Item.videoUrl item = None → Item.sidecarMedias item = None →
     _determine_post_type item = "posts").
Proof.
  unfold _determine_post_type.
  rewrite <- !get_truthy_present.
  destruct (Item.videoUrl item) as [v|], (Item.sidecarMedias item) as [s|];
    unfold get_truthy; simpl;
    destruct (truthy v) eqn:Hv || idtac; destruct (truthy s) eqn:Hs || idtac;
    repeat split; intros; congruence.
Qed.

End PostKind.

Lemma determine_post_type_precedence_witness :
  InstagramAnalytics._determine_post_type
    (with_media (Some (VStr "https://cdn.example/v.mp4")) (Some (VList [VNone])))
  = "reels"
  ∧ InstagramAnalytics._determine_post_type
      (with_media None (Some (VList [VNone]))) = "carousels"
  ∧ InstagramAnalytics._determine_post_type empty_item = "posts".
Proof.
  split; [|split].
  - apply (determine_post_type_precedence (with_media _ _)).
    eexists. split; reflexivity.
  - apply (determine_post_type_precedence (with_media None _)).
    + intros (v & Hv & _). discriminate Hv.
    + eexists. split; reflexivity.
  - apply (determine_post_type_precedence empty_item); reflexivity.
Defined.

(** C7 as stated fails: a [videoUrl] field that is present but holds the
    empty string (or null) does not make the item a reel, and a present but
    empty [sidecarMedias] does not make it a carousel. *)
Lemma present_video_url_not_reel :
  Item.videoUrl (with_media (Some (VStr "")) (Some (VList [VNone]))) ≠ None
  ∧ InstagramAnalytics._determine_post_type
      (with_media (Some (VStr "")) (Some (VList [VNone]))) = "carousels"
  ∧ InstagramAnalytics._determine_post_type (with_media (Some VNone) None)
    = "posts"
  ∧ InstagramAnalytics._determine_post_type (with_media None (Some (VList [])))
    = "posts".
Proof. repeat split; done. Qed.


(** ** Bookmarks *)

Section Bookmarks.
Import InstagramAnalytics.

Lemma list_remove_absent (x : string) (l : list string) :
  x ∉ l → list_remove x l = l.
Proof.
  induction l as [|y l IH]; [done|]. intros Hx. simpl.
  apply not_elem_of_cons in Hx as [Hne Hx].
  rewrite bool_decide_eq_false_2 by done. by rewrite IH.
Qed.

Lemma list_remove_app_absent (x : string) (l : list string) :
  x ∉ l → list_remove x (l ++ [x]) = l.
Proof.
  induction l as [|y l IH]; intros Hx; simpl.
  - by rewrite bool_decide_eq_true_2.
  - apply not_elem_of_cons in Hx as [Hne Hx].
    rewrite bool_decide_eq_false_2 by done. by rewrite IH.
Qed.

(** Removing an element that occurs once leaves the others, in order. *)
Lemma list_remove_perm (x : string) (l : list string) :
  x ∈ l → x :: list_remove x l ≡ₚ l.
Proof.
  induction l as [|y l IH]; intros Hx; [by apply elem_of_nil in Hx|].
  simpl. case_bool_decide as Hy; [by subst|].
  apply elem_of_cons in Hx as [->|Hx]; [done|].
  rewrite Permutation_swap. by rewrite IH.
Qed.

Lemma list_remove_NoDup (x : string) (l : list string) :
  NoDup l → x ∈ l → NoDup (list_remove x l) ∧ x ∉ list_remove x l.
Proof.
  intros Hl Hx. pose proof (list_remove_perm x l Hx) as Hp.
  rewrite <- Hp in Hl. by apply NoDup_cons in Hl as [? ?].
Qed.

Lemma bookmark_post_bookmarks (post_id : string) (w : World) :
  bookmark_post post_id w =
  (Ok (),
   {| clock_reads := clock_reads w; actor_runs := actor_runs w;
      model_calls := model_calls w;
      notices := notices w ++
        [Notice Success (if bool_decide (post_id ∈ bookmarks w)
                         then "Bookmark removed!" else "Post bookmarked!")];
      bookmarks := if bool_decide (post_id ∈ bookmarks w)
                   then list_remove post_id (bookmarks w)
                   else bookmarks w ++ [post_id] |}).
Proof. unfold bookmark_post. by case_bool_decide. Qed.

(** The list never holds an identifier twice. *)
Lemma bookmark_post_NoDup (post_id : string) (w : World) :
  NoDup (bookmarks w) → NoDup (bookmarks (bookmark_post post_id w).2).
Proof.
  intros Hw. rewrite bookmark_post_bookmarks. simpl. case_bool_decide as Hin.
  - by apply list_remove_NoDup.
  - apply NoDup_app. split; [done|]. split; [|apply NoDup_singleton].
    intros y Hy ->%list_elem_of_singleton. done.
Qed.

Lemma bookmarks_reachable_NoDup (ids : list string) :
  NoDup (bookmarks (foldl (λ w i, (bookmark_post i w).2) fresh_world ids)).
Proof.
  assert (∀ w, NoDup (bookmarks w) →
    NoDup (bookmarks (foldl (λ w i, (bookmark_post i w).2) w ids))) as Hgen.
  { induction ids as [|i ids IH]; intros w Hw; [done|].
    simpl. apply IH. by apply bookmark_post_NoDup. }
  apply Hgen. simpl. apply NoDup_nil_2.
Qed.

(** C10. On a bookmark list (no identifier twice, as every list built by
    the toggle is), the toggle adds an absent identifier and removes a
    present one, and two toggles of one identifier give back the same set of
    bookmarks: the same members, the same number of them.  An identifier that
    was absent is appended and removed again, so the list itself comes back;
    one that was present comes back at the end of the list. *)
Theorem bookmark_post_involutive (post_id : string) (w : World) :
  NoDup (bookmarks w) →
  let w1 := (bookmark_post post_id w).2 in
  let w2 := (bookmark_post post_id w1).2 in
  (bookmark_post post_id w).1 = Ok ()
  ∧ (bookmark_post post_id w1).1 = Ok ()
  ∧ (post_id ∉ bookmarks w → bookmark_set w1 = bookmark_set w ∪ {[post_id]})
  ∧ (post_id ∈ bookmarks w → bookmark_set w1 = bookmark_set w ∖ {[post_id]})
  ∧ bookmark_set w2 = bookmark_set w
  ∧ bookmarks w2 ≡ₚ bookmarks w
  ∧ (post_id ∉ bookmarks w → bookmarks w2 = bookmarks w).
Proof.
  intros Hw w1 w2. subst w1 w2. rewrite !bookmark_post_bookmarks. simpl.
  unfold bookmark_set. simpl.
  split; [done|]. split; [done|].
  destruct (decide (post_id ∈ bookmarks w)) as [Hin|Hin].
  - rewrite (bool_decide_eq_true_2 _ Hin).
    destruct (list_remove_NoDup post_id _ Hw Hin) as [Hnd Hout].
    rewrite (bool_decide_eq_false_2 _ Hout).
    pose proof (list_remove_perm post_id _ Hin) as Hp.
    assert ((list_remove post_id (bookmarks w) ++ [post_id])%list ≡ₚ bookmarks w) as Hp2.
    { by rewrite <- Permutation_cons_append. }
    split; [done|]. split.
    + intros _. apply set_eq. intros y.
      assert (y ∈ bookmarks w ↔
              y = post_id ∨ y ∈ list_remove post_id (bookmarks w)) as Hmem.
      { rewrite <- elem_of_cons. by rewrite Hp. }
      rewrite elem_of_difference, !elem_of_list_to_set, elem_of_singleton, Hmem.
      split.
      * intros Hy. split; [by right|]. by intros ->.
      * by intros [[->|Hy] Hne].
    + split; [|split; [done|done]].
      apply set_eq. intros y. by rewrite !elem_of_list_to_set, Hp2.
  - rewrite (bool_decide_eq_false_2 _ Hin).
    assert (post_id ∈ (bookmarks w ++ [post_id])%list) as Hin2.
    { apply elem_of_app. right. apply list_elem_of_singleton. done. }
    rewrite (bool_decide_eq_true_2 _ Hin2), list_remove_app_absent by done.
    split.
    + intros _. apply set_eq. intros y.
      rewrite elem_of_union, !elem_of_list_to_set, elem_of_app,
        list_elem_of_singleton, elem_of_singleton. done.
    + done.
Qed.

End Bookmarks.

Lemma bookmark_post_involutive_witness :
  NoDup ["a"; "b"]
  ∧ bookmarks
      (InstagramAnalytics.bookmark_post "a"
         (InstagramAnalytics.bookmark_post "a"
            (InstagramAnalytics.set_bookmarks ["a"; "b"] fresh_world)).2).2
    ≡ₚ ["a"; "b"].
Proof.
  assert (NoDup ["a"; "b"]) as H.
  { apply NoDup_cons_2; [|apply NoDup_singleton].
    intros Hin%list_elem_of_singleton. discriminate Hin. }
  split; [exact H|].
  apply (bookmark_post_involutive "a"
           (InstagramAnalytics.set_bookmarks ["a"; "b"] fresh_world) H).
Defined.

(** The list, unlike the set, can come back in another order. *)
Remark bookmark_post_twice_order :
  bookmarks
    (InstagramAnalytics.bookmark_post "a"
       (InstagramAnalytics.bookmark_post "a"
          (InstagramAnalytics.set_bookmarks ["a"; "b"] fresh_world)).2).2
  = ["b"; "a"].
Proof. reflexivity. Qed.


(** ** Sorting *)

Section Sorting.
Context {A : Type} (key : A → Z).

Lemma sort_insert_perm (x : A) (l : list A) :
  sort_insert key true x l ≡ₚ x :: l.
Proof.
  induction l as [|y l IH]; simpl; [done|].
  destruct (key y <=? key x); [done|].
  by rewrite IH, Permutation_swap.
Qed.

Lemma list_sort_perm (l : list A) : list_sort key true l ≡ₚ l.
Proof.
  induction l as [|x l IH]; simpl; [done|].
  by rewrite sort_insert_perm, IH.
Qed.

Lemma sort_insert_descending (x : A) (l : list A) :
  descending key l → descending key (sort_insert key true x l).
Proof.
  unfold descending. induction l as [|y l IH]; intros Hl; simpl.
  - repeat constructor.
  - apply StronglySorted_inv in Hl as [Hl Hy].
    destruct (key y <=? key x) eqn:Hc.
    + apply Z.leb_le in Hc. constructor; [by constructor|].
      constructor; [done|].
      eapply Forall_impl; [exact Hy|]. simpl. intros z Hz. lia.
    + apply Z.leb_gt in Hc. constructor; [by apply IH|].
      rewrite sort_insert_perm. constructor; [lia | done].
Qed.

Lemma list_sort_descending (l : list A) : descending key (list_sort key true l).
Proof.
  induction l as [|x l IH]; simpl; [constructor|].
  by apply sort_insert_descending.
Qed.

(** Insertion never moves an element past one with the same key. *)
Lemma sort_insert_with_key (k : Z) (x : A) (l : list A) :
  with_key key k (sort_insert key true x l) = with_key key k (x :: l).
Proof.
  unfold with_key. induction l as [|y l IH]; simpl; [done|].
  destruct (key y <=? key x) eqn:Hc; [done|].
  apply Z.leb_gt in Hc.
  rewrite (filter_cons _ y), IH, !(filter_cons _ x), !(filter_cons _ y).
  repeat case_decide; try done. lia.
Qed.

Lemma list_sort_with_key (k : Z) (l : list A) :
  with_key key k (list_sort key true l) = with_key key k l.
Proof.
  induction l as [|x l IH]; simpl; [done|].
  rewrite sort_insert_with_key. unfold with_key in *.
  by rewrite !(filter_cons _ x), IH.
Qed.

(** In a descending list a later record has no larger key. *)
Lemma descending_lookup (l : list A) (i j : nat) (x y : A) :
  descending key l → l !! i = Some x → l !! j = Some y → (i < j)%nat →
  key y ≤ key x.
Proof.
  unfold descending. intros Hl. revert i j.
  induction Hl as [|z l Hl IH Hz]; intros i j Hi Hj Hlt; [done|].
  destruct j as [|j]; [lia|]. destruct i as [|i]; simpl in *.
  - injection Hi as ->. rewrite Forall_forall in Hz.
    apply Hz. by eapply list_elem_of_lookup_2.
  - apply (IH i j); [done..|lia].
Qed.

End Sorting.

Section SortingDatetime.
Context {A : Type} (key : A → datetime).

Lemma sort_insert_datetime_same (x : A) (l : list A) :
  Forall (λ y, aware (key y) = aware (key x)) l →
  sort_insert_datetime key true x l
  = Ok (sort_insert (λ a, instant (key a)) true x l).
Proof.
  induction l as [|y l IH]; intros Hl; [done|].
  apply Forall_cons in Hl as [Hy Hl]. simpl.
  unfold goes_before_datetime, datetime_lt.
  rewrite bool_decide_eq_true_2 by done.
  rewrite Z.leb_antisym.
  destruct (instant (key x) <? instant (key y)); simpl; [|done].
  by rewrite IH.
Qed.

Lemma sort_insert_datetime_differ (x y : A) (l : list A) :
  aware (key y) ≠ aware (key x) →
  sort_insert_datetime key true x (y :: l) = Raise datetime_type_error.
Proof.
  intros Hy. simpl. unfold goes_before_datetime, datetime_lt.
  by rewrite bool_decide_eq_false_2 by done.
Qed.

Lemma existsb_false_Forall {B} (f : B → bool) (l : list B) :
  existsb f l = false ↔ Forall (λ x, f x = false) l.
Proof.
  induction l as [|x l IH]; simpl; [by split; [constructor|]|].
  rewrite orb_false_iff, IH, Forall_cons. done.
Qed.

(** With keys that are all aware or all naive the sort is the sort by
    their instants; with mixed keys it raises. *)
Lemma list_sort_datetime_run (l : list A) :
  list_sort_datetime key true l
  = if mixed (key <$> l) then Raise datetime_type_error
    else Ok (list_sort (λ a, instant (key a)) true l).
Proof.
  induction l as [|x l IH]; [done|].
  cbn [list_sort_datetime list_sort]. rewrite IH. unfold mixed in *.
  rewrite fmap_cons. cbn [existsb].
  destruct (existsb aware (key <$> l)) eqn:Ha;
    destruct (existsb (λ d, negb (aware d)) (key <$> l)) eqn:Hn; simpl.
  - by rewrite !orb_true_r.
  - apply existsb_false_Forall in Hn. rewrite Forall_fmap in Hn.
    destruct (aware (key x)) eqn:Hx; simpl.
    + apply sort_insert_datetime_same.
      rewrite (list_sort_perm (λ a, instant (key a)) l).
      eapply Forall_impl; [exact Hn|]. simpl. intros y Hy.
      apply negb_false_iff in Hy. congruence.
    + destruct (list_sort (λ a, instant (key a)) true l) as [|y r] eqn:Hs.
      * apply (f_equal length) in Hs.
        rewrite (list_sort_perm (λ a, instant (key a)) l) in Hs.
        destruct l; [discriminate Ha | discriminate Hs].
      * apply sort_insert_datetime_differ.
        assert (y ∈ l) as Hin.
        { rewrite <- (list_sort_perm (λ a, instant (key a)) l), Hs.
          apply list_elem_of_here. }
        rewrite Forall_forall in Hn. specialize (Hn y Hin). simpl in Hn.
        apply negb_false_iff in Hn. congruence.
  - apply existsb_false_Forall in Ha. rewrite Forall_fmap in Ha.
    destruct (aware (key x)) eqn:Hx; simpl.
    + destruct (list_sort (λ a, instant (key a)) true l) as [|y r] eqn:Hs.
      * apply (f_equal length) in Hs.
        rewrite (list_sort_perm (λ a, instant (key a)) l) in Hs.
        destruct l; [discriminate Hn | discriminate Hs].
      * apply sort_insert_datetime_differ.
        assert (y ∈ l) as Hin.
        { rewrite <- (list_sort_perm (λ a, instant (key a)) l), Hs.
          apply list_elem_of_here. }
        rewrite Forall_forall in Ha. specialize (Ha y Hin). simpl in Ha.
        congruence.
    + apply sort_insert_datetime_same.
      rewrite (list_sort_perm (λ a, instant (key a)) l).
      eapply Forall_impl; [exact Ha|]. simpl. intros y Hy. congruence.
  - apply existsb_false_Forall in Ha. rewrite Forall_fmap in Ha.
    apply existsb_false_Forall in Hn. rewrite Forall_fmap in Hn.
    assert (l = []) as ->.
    { destruct l as [|z l]; [done|]. exfalso.
      apply Forall_cons in Ha as [Hz _]. apply Forall_cons in Hn as [Hz' _].
      simpl in Hz, Hz'. rewrite Hz in Hz'. discriminate Hz'. }
    by destruct (aware (key x)).
Qed.

End SortingDatetime.


Lemma sort_posts_perm (sort_by : string) (posts sorted : list Post.t) :
  InstagramAnalytics.sort_posts sort_by posts = Ok sorted → sorted ≡ₚ posts.
Proof.
  unfold InstagramAnalytics.sort_posts.
  do 4 (case_bool_decide; [intros [= <-]; apply list_sort_perm|]).
  case_bool_decide; [|by intros [= <-]].
  rewrite list_sort_datetime_run. destruct (mixed _); [done|].
  intros [= <-]. apply list_sort_perm.
Qed.

Section Examples2.
#[local] Existing Instance plain_case.

(** C9. The sort of [main] on the posts of a live fetch whose provider
    returned one item dated with a [Z] suffix and one item without a date:
    the first timestamp is aware, the second is the naive clock reading.
    Sorted by Recent the comparison of the two raises [TypeError], which
    leaves [main]; sorted by Likes the same list is put in order. *)
Theorem sort_by_recent_raises :
  let env := world_of still_clock (Some [old_item; empty_item]) in
  ∃ posts w,
    InstagramAnalytics.scrape_instagram_posts env configured ["#design"]
      "Week" "all" 10 fresh_world = (Ok posts, w)
    ∧ notices w = []
    ∧ Post.timestamp <$> posts
      = [DateTime (timedelta 1) true; naive (timedelta 100)]
    ∧ InstagramAnalytics.sort_posts "Recent" posts = Raise datetime_type_error
    ∧ load_posts env configured ["#design"] "Week" "All" "Recent" 10 fresh_world
      = (Raise datetime_type_error, w)
    ∧ InstagramAnalytics.sort_posts "Likes" posts = Ok posts
    ∧ load_posts env configured ["#design"] "Week" "All" "Likes" 10 fresh_world
      = (Ok posts, w).
Proof.
  intros env. subst env. do 2 eexists.
  split; [reflexivity|]. repeat split.
Qed.

End Examples2.



Example sort_posts_ties :
  InstagramAnalytics.sort_posts "Likes"
    [sample_post "a" 5 0; sample_post "b" 9 0; sample_post "c" 5 0;
     sample_post "d" 9 0]
  = Ok [sample_post "b" 9 0; sample_post "d" 9 0; sample_post "a" 5 0;
        sample_post "c" 5 0].
Proof. reflexivity. Qed.


(** ** Hashtag extraction *)

Section Hashtags.
Variable is_word : ascii → bool.

Lemma word_run_prefix (s : list ascii) :
  take (length (word_run is_word s)) s = word_run is_word s.
Proof.
  induction s as [|c s IH]; simpl; [done|].
  destruct (is_word c); simpl; [by rewrite IH | done].
Qed.

Lemma word_run_Forall (s : list ascii) :
  Forall (λ c, is_word c = true) (word_run is_word s).
Proof.
  induction s as [|c s IH]; simpl; [constructor|].
  destruct (is_word c) eqn:Hc; by constructor.
Qed.

Lemma left_to_right_l_mono (a b : nat) (occ : list (nat * list ascii)) :
  (b ≤ a)%nat → left_to_right_l a occ → left_to_right_l b occ.
Proof. destruct occ as [|[p t] r]; simpl; [done|]. intros ? [? ?]. split; [lia|done]. Qed.

Lemma left_to_right_l_take (a n : nat) (occ : list (nat * list ascii)) :
  left_to_right_l a occ → left_to_right_l a (take n occ).
Proof.
  revert a n. induction occ as [|[p t] l IH]; intros a n; [by destruct n|].
  destruct n as [|n]; simpl; [done|]. intros [? ?]. split; [done|]. by apply IH.
Qed.

Lemma finditer_left_to_right (s : list ascii) (pos skip : nat) :
  left_to_right_l (pos + skip) (finditer is_word s pos skip).
Proof.
  revert pos skip. induction s as [|c r IH]; intros pos skip; simpl; [done|].
  destruct skip as [|k].
  - case_bool_decide as Hc.
    + destruct (word_run is_word r) as [|c' w] eqn:Hw.
      * eapply left_to_right_l_mono; [|apply IH]. lia.
      * simpl. split; [lia|].
        replace (pos + S (S (length w)))%nat with (S pos + S (length w))%nat by lia.
        apply IH.
    + eapply left_to_right_l_mono; [|apply IH]. lia.
  - replace (pos + S k)%nat with (S pos + k)%nat by lia. apply IH.
Qed.

Lemma match_ok_cons (c : ascii) (r : list ascii) (pos : nat) m :
  match_ok is_word r (S pos) m → match_ok is_word (c :: r) pos m.
Proof.
  intros (Hp & Ht & Hw). split; [lia|]. split; [|done].
  replace (m.1 - pos)%nat with (S (m.1 - S pos)) by lia. done.
Qed.

Lemma finditer_matches (s : list ascii) (pos skip : nat) :
  Forall (match_ok is_word s pos) (finditer is_word s pos skip).
Proof.
  revert pos skip. induction s as [|c r IH]; intros pos skip; simpl; [constructor|].
  assert (∀ k, Forall (match_ok is_word (c :: r) pos)
                     (finditer is_word r (S pos) k)) as Hrec.
  { intros k. eapply Forall_impl; [apply IH|]. apply match_ok_cons. }
  destruct skip as [|k]; [|apply Hrec].
  case_bool_decide as Hc; [|apply Hrec].
  destruct (word_run is_word r) as [|c' w] eqn:Hw; [apply Hrec|].
  constructor; [|apply Hrec].
  split; [simpl; lia|]. split.
  - simpl. rewrite Nat.sub_diag. simpl. f_equal.
    pose proof (word_run_prefix r) as Hpre. by rewrite Hw in Hpre.
  - exists (c' :: w). subst c. split; [done|]. split; [done|].
    rewrite <- Hw. apply word_run_Forall.
Qed.

End Hashtags.

Lemma substring_take_drop (p n : nat) (s : string) :
  String.substring p n s =
  String.string_of_list_ascii (take n (drop p (String.list_ascii_of_string s))).
Proof.
  revert p n. induction s as [|c s IH]; intros p n.
  - destruct p, n; reflexivity.
  - destruct p as [|p]; simpl.
    + destruct n as [|n]; simpl; [done|]. f_equal. apply (IH 0%nat).
    + apply IH.
Qed.

Lemma length_string_of_list_ascii (l : list ascii) :
  String.length (String.string_of_list_ascii l) = length l.
Proof. induction l; simpl; congruence. Qed.

(** C8. The extraction returns at most five tokens; each is [#] followed by
    one or more word characters and is the text the caption holds at some
    index; these indices increase from one token to the next (a token starts
    behind the end of the one before it). *)
Theorem extract_hashtags_spec (env : Env) (caption : string) :
  ∃ occ : list (nat * string),
    InstagramAnalytics._extract_hashtags env caption = occ.*2
    ∧ (length occ ≤ 5)%nat
    ∧ left_to_right 0 occ
    ∧ Forall (λ m, occurs_at caption m ∧ is_hashtag (word_char env) m.2) occ.
Proof.
  set (cs := String.list_ascii_of_string caption).
  set (ms := take 5 (finditer (word_char env) cs 0 0)).
  exists (prod_map id String.string_of_list_ascii <$> ms).
  assert (left_to_right_l 0 ms ∧ Forall (match_ok (word_char env) cs 0) ms)
    as [Horder Hms].
  { split.
    - apply left_to_right_l_take.
      apply (finditer_left_to_right (word_char env) cs 0 0).
    - apply Forall_take, finditer_matches. }
  split; [|split; [|split]].
  - unfold InstagramAnalytics._extract_hashtags, findall.
    fold cs. rewrite <- fmap_take. fold ms.
    rewrite <- list_fmap_compose. by apply list_fmap_ext.
  - rewrite length_fmap. subst ms. rewrite length_take. lia.
  - clear Hms. revert Horder. generalize 0%nat. induction ms as [|[p t] l IH];
      intros a; simpl; [done|].
    intros [? ?]. split; [done|]. rewrite length_string_of_list_ascii. by apply IH.
  - clear Horder. induction Hms as [|[p t] l (Hp & Ht & w & Heq & Hne & Hw) _ IH];
      simpl; constructor; [|done].
    simpl in *. subst t. split.
    + unfold occurs_at. simpl. rewrite substring_take_drop. fold cs.
      rewrite length_string_of_list_ascii. simpl length.
      rewrite Nat.sub_0_r in Ht. simpl length in Ht. by rewrite Ht.
    + exists (String.string_of_list_ascii w). split; [done|]. split.
      * by destruct w.
      * by rewrite String.list_ascii_of_string_of_list_ascii.
Qed.

Example extract_hashtags_example :
  take 5 (findall ascii_word "new #ui and ##ux_2 #! #a#b #c #d #e")
  = ["#ui"; "#ux_2"; "#a"; "#b"; "#c"].
Proof. reflexivity. Qed.

(** ** Running effectful code *)

Lemma bind_ok {A B} (m : M A) (k : A → M B) (w w' : World) (a : A) :
  m w = (Ok a, w') → (m ≫= k) w = k a w'.
Proof. intros H. unfold mbind, M_bind. by rewrite H. Qed.

Lemma bind_raise {A B} (m : M A) (k : A → M B) (w w' : World) (e : exn) :
  m w = (Raise e, w') → (m ≫= k) w = (Raise e, w').
Proof. intros H. unfold mbind, M_bind. by rewrite H. Qed.

Lemma datetime_now_run (env : Env) (w : World) :
  datetime_now env w = (Ok (clock env (clock_reads w)), tick 1 w).
Proof. unfold datetime_now, tick. do 2 f_equal. lia. Qed.

Lemma tick_tick (n m : nat) (w : World) : tick n (tick m w) = tick (m + n) w.
Proof. unfold tick. simpl. f_equal. lia. Qed.

Lemma tick_0 (w : World) : tick 0 w = w.
Proof. destruct w. unfold tick. simpl. f_equal. lia. Qed.

(** ** Which providers are available *)

(** [__init__] never raises; a provider is available exactly when its
    credential is non-empty and the set-up of its client does not raise. *)
Lemma init_available {UC : Unicode} (env : Env) (api_keys : gmap string string) (w : World) :
  ∃ self w',
    InstagramAnalytics.init env api_keys w = (Ok self, w')
    ∧ InstagramAnalytics.scraping_available self
      = truthy_str (SecretsManager.get_secret api_keys "apify_token")
        && is_ok (apify_setup env)
    ∧ InstagramAnalytics.ai_available self
      = truthy_str (SecretsManager.get_secret api_keys "gemini_api_key")
        && is_ok (genai_setup env).
Proof.
  unfold InstagramAnalytics.init.
  destruct (truthy_str (SecretsManager.get_secret api_keys "gemini_api_key"));
    destruct (truthy_str (SecretsManager.get_secret api_keys "apify_token"));
    destruct (genai_setup env) as [[]|e1]; destruct (apify_setup env) as [[]|e2];
    by do 2 eexists.
Qed.

(** ** Demo data *)

Section Demo.
Import InstagramAnalytics.
Variable env : Env.

Lemma mock_posts_from (hashtags : list string) (post_type : string)
    (s n : nat) (w : World) :
  mapM (λ i, now ← datetime_now env; mret (mock_post hashtags post_type i now))
       (seq s n) w
  = (Ok ((λ j, mock_post hashtags post_type (s + j)
                 (clock env (clock_reads w + j))) <$> seq 0 n),
     tick n w).
Proof.
  revert s w. induction n as [|n IH]; intros s w.
  - simpl. unfold mret, M_ret. by rewrite tick_0.
  - cbn [seq mapM].
    rewrite (bind_ok _ _ w (tick 1 w)
               (mock_post hashtags post_type s (clock env (clock_reads w)))).
    2:{ by rewrite (bind_ok _ _ _ _ _ (datetime_now_run env w)). }
    rewrite (bind_ok _ _ _ _ _ (IH (S s) (tick 1 w))).
    unfold mret, M_ret. rewrite tick_tick. f_equal. f_equal.
    rewrite fmap_cons, <- fmap_S_seq, <- list_fmap_compose. f_equal.
    + by rewrite !Nat.add_0_r.
    + apply list_fmap_ext. intros _ j _. simpl.
      by replace (s + S j)%nat with (S (s + j)) by lia;
         replace (clock_reads w + 1 + j)%nat with (clock_reads w + S j)%nat by lia.
Qed.

Lemma mock_posts_run (hashtags : list string) (post_type : string)
    (limit : Z) (w : World) :
  mock_posts env hashtags post_type limit w
  = (Ok (mock_list env hashtags post_type (Z.to_nat limit) w),
     tick (Z.to_nat limit) w).
Proof. unfold mock_posts. by rewrite mock_posts_from. Qed.

(** The generated records carry naive timestamps, and on naive timestamps
    the comparison with the cut-off never raises. *)
Lemma mock_list_naive (hashtags : list string) (post_type : string)
    (n : nat) (w : World) :
  Forall (λ post, aware (Post.timestamp post) = false)
    (mock_list env hashtags post_type n w).
Proof. unfold mock_list. rewrite Forall_fmap. by apply Forall_true. Qed.

Lemma filter_res_naive (cutoff : Z) (posts : list Post.t) :
  Forall (λ post, aware (Post.timestamp post) = false) posts →
  filter_res (λ post, datetime_ge (Post.timestamp post) (naive cutoff)) posts
  = Ok (filter (λ post, cutoff ≤ instant (Post.timestamp post)) posts).
Proof.
  induction 1 as [|post posts Hpost _ IH]; [done|].
  simpl. rewrite IH. unfold datetime_ge. simpl. rewrite Hpost. simpl.
  rewrite filter_cons.
  destruct (cutoff <=? instant (Post.timestamp post)) eqn:Hc.
  - apply Z.leb_le in Hc. by rewrite decide_True.
  - apply Z.leb_gt in Hc. rewrite decide_False; [done|lia].
Qed.

(** The demo path: the generated records that are not older than the
    cut-off, which is read from the clock after the records are built. *)
Lemma get_demo_data_run (hashtags : list string) (time_filter post_type : string)
    (limit : Z) (w : World) :
  let n := Z.to_nat limit in
  _get_demo_data env hashtags time_filter post_type limit w
  = (Ok (filter (λ post, clock env (clock_reads w + n)
                         - timedelta (dict_get time_filters_demo time_filter 30)
                         ≤ instant (Post.timestamp post))
           (mock_list env hashtags post_type n w)),
     tick (S n) w).
Proof.
  intros n. unfold _get_demo_data.
  rewrite (bind_ok _ _ _ _ _ (mock_posts_run _ _ _ _)).
  rewrite (bind_ok _ _ _ _ _ (datetime_now_run _ _)).
  unfold lift. rewrite filter_res_naive by apply mock_list_naive.
  rewrite tick_tick. simpl clock_reads. fold n.
  by replace (n + 1)%nat with (S n) by lia.
Qed.

Lemma mock_list_length (hashtags : list string) (post_type : string)
    (n : nat) (w : World) :
  length (mock_list env hashtags post_type n w) = n.
Proof. unfold mock_list. by rewrite length_fmap, length_seq. Qed.

Lemma mock_list_lookup (hashtags : list string) (post_type : string)
    (n i : nat) (w : World) :
  (i < n)%nat →
  mock_list env hashtags post_type n w !! i
  = Some (mock_post hashtags post_type i (clock env (clock_reads w + i))).
Proof.
  intros Hi. unfold mock_list. rewrite list_lookup_fmap, lookup_seq_lt by done.
  done.
Qed.

End Demo.

Section DemoScenario.
Context {UC : Unicode}.
Import InstagramAnalytics.

Lemma demo_kind_cycle (i : nat) :
  default "" (["posts"; "carousels"; "reels"] !! (i `mod` 3)%nat) = demo_kind i.
Proof.
  unfold demo_kind. pose proof (Nat.mod_upper_bound i 3 ltac:(lia)) as Hi.
  destruct (i `mod` 3)%nat as [|[|[|k]]]; [done..|lia].
Qed.

Lemma scrape_unconfigured (env : Env) (self : t) (hashtags : list string)
    (time_filter post_type : string) (limit : Z) (w : World) :
  scraping_available self = false →
  scrape_instagram_posts env self hashtags time_filter post_type limit w
  = _get_demo_data env hashtags time_filter post_type limit
      (notified (Notice Warning "⚠️ Apify not configured. Using demo data.") w).
Proof. intros H. unfold scrape_instagram_posts. by rewrite H. Qed.

(** C3. Without a scraping provider, a fetch for [#design], the last week,
    all kinds and ten posts builds exactly ten records; record [i] has
    [1500 + 100 i] likes, its kind cycles through posts, carousels and reels
    with [i mod 3], and its timestamp is the clock reading taken for it minus
    [i mod 30] days.  What is returned are the records not older than seven
    days before the clock reading taken after them, so at most ten.  Nothing
    sorts them: when the clock is set forward while the records are built,
    they come back out of order of recency. *)
Theorem demo_week_scenario (env : Env) (self : t) (w : World) :
  scraping_available self = false →
  let w0 := notified (Notice Warning "⚠️ Apify not configured. Using demo data.") w in
  let posts := mock_list env ["#design"] "all" 10 w in
  let cutoff := clock env (clock_reads w + 10) - timedelta 7 in
  let kept := filter (λ post, cutoff ≤ instant (Post.timestamp post)) posts in
  mock_posts env ["#design"] "all" 10 w0 = (Ok posts, tick 10 w0)
  ∧ length posts = 10%nat
  ∧ (∀ i post, posts !! i = Some post →
       Post.likes post = 1500 + 100 * Z.of_nat i
       ∧ Post.post_type post = demo_kind i
       ∧ Post.timestamp post
         = naive (clock env (clock_reads w + i)
                  - timedelta (Z.of_nat i `mod` 30)))
  ∧ scrape_instagram_posts env self ["#design"] "Week" "all" 10 w
    = (Ok kept, tick 11 w0)
  ∧ (length kept ≤ 10)%nat
  ∧ ¬ descending (λ post, instant (Post.timestamp post))
        (returned (scrape_instagram_posts (world_of adjusted_clock None)
                     unconfigured ["#design"] "Week" "all" 10 fresh_world)).
Proof.
  intros Hself w0 posts cutoff kept.
  split; [by rewrite mock_posts_run|].
  split; [apply mock_list_length|].
  split.
  { intros i post Hi.
    assert (i < 10)%nat as Hlt.
    { apply lookup_lt_Some in Hi. subst posts.
      by rewrite mock_list_length in Hi. }
    subst posts. rewrite mock_list_lookup in Hi by done.
    injection Hi as <-. unfold mock_post.
    cbn [Post.likes Post.post_type Post.timestamp bool_decide negb].
    rewrite bool_decide_eq_true_2 by done. cbn [negb].
    rewrite demo_kind_cycle. split; [lia|done]. }
  split.
  { rewrite scrape_unconfigured by done. fold w0.
    by rewrite get_demo_data_run. }
  split.
  { subst kept. etransitivity; [apply length_filter|].
    subst posts. by rewrite mock_list_length. }
  rewrite scrape_unconfigured by done. rewrite get_demo_data_run.
  unfold returned, descending. cbn.
  intros H. apply StronglySorted_inv in H as [_ H].
  apply Forall_cons in H as [H _]. vm_compute in H. by apply H.
Qed.

End DemoScenario.

Section Examples3.
#[local] Existing Instance plain_case.

Example mock_post_example :
  let post := InstagramAnalytics.mock_post ["#ui"; "#design"] "all" 4 (timedelta 100) in
  Post.id post = "post_4"
  ∧ Post.creator post = "designer_4"
  ∧ Post.likes post = 1900
  ∧ Post.comments post = 65
  ∧ Post.post_type post = "carousels"
  ∧ Post.url post = "https://instagram.com/p/mock_4"
  ∧ Post.timestamp post = naive (timedelta 96)
  ∧ Post.hashtags post = ["#ui"; "#design"].
Proof. repeat split; reflexivity. Qed.

Lemma demo_week_scenario_witness :
  InstagramAnalytics.scraping_available unconfigured = false
  ∧ length (returned (InstagramAnalytics.scrape_instagram_posts
                        (world_of still_clock None) unconfigured
                        ["#design"] "Week" "all" 10 fresh_world)) = 8%nat.
Proof.
  split; [reflexivity|].
  destruct (demo_week_scenario (world_of still_clock None) unconfigured
              fresh_world eq_refl) as (_ & _ & _ & Hrun & _).
  rewrite Hrun. reflexivity.
Defined.

(** Outside C3: with more than thirty records the order of recency breaks on
    any clock, here one that stands still: record 30 is as recent as record 0
    and follows record 29. *)
Remark demo_month_not_by_recency :
  ¬ descending (λ post, instant (Post.timestamp post))
      (returned (InstagramAnalytics.scrape_instagram_posts
                   (world_of still_clock None) unconfigured
                   ["#design"] "Month" "all" 31 fresh_world)).
Proof.
  rewrite scrape_unconfigured by done. rewrite get_demo_data_run.
  unfold returned. cbn [fst].
  intros H.
  pose proof (descending_lookup (λ post, instant (Post.timestamp post))
                _ 29 30 _ _ H
                eq_refl eq_refl ltac:(lia)) as Hle.
  vm_compute in Hle. by apply Hle.
Qed.

End Examples3.


(** ** The live path and its fallback *)

Section Retrieval.
Context {UC : Unicode}.
Import InstagramAnalytics.
Variables (env : Env) (self : t).
Variables (hashtags : list string) (time_filter post_type : string) (limit : Z).

Lemma actor_call_run (i : ActorInput) (w : World) :
  actor_call env i w = (actor env (actor_runs w) i, ran_actor w).
Proof. reflexivity. Qed.

Lemma scrape_live_actor_raise (w : World) (e : exn) :
  actor env (actor_runs w) (live_input env self hashtags time_filter limit w) = Raise e →
  scrape_live env self hashtags time_filter post_type limit w
  = (Raise e, ran_actor (tick 1 w)).
Proof.
  intros H. unfold scrape_live.
  rewrite (bind_ok _ _ _ _ _ (datetime_now_run _ _)).
  apply bind_raise. rewrite actor_call_run. by rewrite <- H.
Qed.

Lemma scrape_live_ok (w w' : World) (items : list Item.t) (posts : list Post.t) :
  actor env (actor_runs w) (live_input env self hashtags time_filter limit w) = Ok items →
  mapM (post_data env) items (ran_actor (tick 1 w)) = (Ok posts, w') →
  scrape_live env self hashtags time_filter post_type limit w
  = (Ok (slice_to limit (kind_filter post_type posts)), w').
Proof.
  intros Hactor Hposts. unfold scrape_live.
  rewrite (bind_ok _ _ _ _ _ (datetime_now_run _ _)).
  rewrite (bind_ok _ _ _ (ran_actor (tick 1 w)) items).
  2:{ rewrite actor_call_run. by rewrite <- Hactor. }
  by rewrite (bind_ok _ _ _ _ _ Hposts).
Qed.

Lemma get_demo_data_ok (w : World) :
  ∃ posts,
    _get_demo_data env hashtags time_filter post_type limit w
    = (Ok posts, tick (S (Z.to_nat limit)) w).
Proof. eexists. apply get_demo_data_run. Qed.

Lemma scrape_caught (w w1 : World) (e : exn) :
  scraping_available self = true →
  scrape_live env self hashtags time_filter post_type limit w = (Raise e, w1) →
  scrape_instagram_posts env self hashtags time_filter post_type limit w
  = _get_demo_data env hashtags time_filter post_type limit
      (notified (scraping_failed e) w1).
Proof.
  intros Hself Hlive. unfold scrape_instagram_posts, try_except.
  rewrite Hself. cbn [negb]. by rewrite Hlive.
Qed.

(** C4. With the provider configured, an exception raised by the remote
    scrape (or anywhere else in the [try] block) does not leave the fetch:
    one notice with its message is shown and the fetch returns the demo data
    of the same arguments.  No fetch raises, whatever the object and the
    outside world. *)
Theorem scrape_failure_falls_back (w : World) :
  (scraping_available self = true →
   ∀ e, actor env (actor_runs w) (live_input env self hashtags time_filter limit w) = Raise e →
     scrape_instagram_posts env self hashtags time_filter post_type limit w
     = _get_demo_data env hashtags time_filter post_type limit
         (notified (scraping_failed e) (ran_actor (tick 1 w))))
  ∧ (scraping_available self = true →
     ∀ e w1,
       scrape_live env self hashtags time_filter post_type limit w = (Raise e, w1) →
       ∃ posts,
         scrape_instagram_posts env self hashtags time_filter post_type limit w
         = (Ok posts, tick (S (Z.to_nat limit)) (notified (scraping_failed e) w1))
         ∧ _get_demo_data env hashtags time_filter post_type limit
             (notified (scraping_failed e) w1)
           = (Ok posts, tick (S (Z.to_nat limit)) (notified (scraping_failed e) w1)))
  ∧ ∃ posts w',
      scrape_instagram_posts env self hashtags time_filter post_type limit w
      = (Ok posts, w').
Proof.
  split; [|split].
  - intros Hself e He. apply scrape_caught; [done|].
    by apply scrape_live_actor_raise.
  - intros Hself e w1 Hlive.
    destruct (get_demo_data_ok (notified (scraping_failed e) w1)) as [posts Hd].
    exists posts. split; [|done]. by rewrite (scrape_caught w w1 e).
  - destruct (scraping_available self) eqn:Hself.
    + destruct (scrape_live env self hashtags time_filter post_type limit w)
        as [[posts|e] w1] eqn:Hlive.
      * exists posts, w1. unfold scrape_instagram_posts, try_except.
        rewrite Hself. cbn [negb]. by rewrite Hlive.
      * destruct (get_demo_data_ok (notified (scraping_failed e) w1)) as [posts Hd].
        exists posts. eexists. by rewrite (scrape_caught w w1 e).
    + rewrite scrape_unconfigured by done. destruct (get_demo_data_ok
        (notified (Notice Warning "⚠️ Apify not configured. Using demo data.") w))
        as [posts Hd].
      by exists posts; eexists.
Qed.

End Retrieval.

Section Examples4.
#[local] Existing Instance plain_case.

Lemma scrape_failure_falls_back_witness :
  InstagramAnalytics.scraping_available configured = true
  ∧ actor (world_of still_clock None) 0
      (live_input (world_of still_clock None) configured ["#design"] "Week" 10
         fresh_world)
    = Raise (Exn "ApifyApiError" "actor run failed")
  ∧ InstagramAnalytics.scrape_instagram_posts (world_of still_clock None)
      configured ["#design"] "Week" "all" 10 fresh_world
    = InstagramAnalytics._get_demo_data (world_of still_clock None)
        ["#design"] "Week" "all" 10
        (notified (scraping_failed (Exn "ApifyApiError" "actor run failed"))
           (ran_actor (tick 1 fresh_world))).
Proof.
  split; [reflexivity|]. split; [reflexivity|].
  apply (scrape_failure_falls_back (world_of still_clock None) configured
           ["#design"] "Week" "all" 10 fresh_world); reflexivity.
Defined.

End Examples4.


(** ** Content classifier *)

Section Classifier.
Import InstagramAnalytics.
Variables (env : Env) (self : t) (caption : string) (hashtags : list string).

Lemma model_generate_content_run (p : string) (w : World) :
  model_generate_content env p w
  = (generate_content env (model_calls w) p, called_model w).
Proof. reflexivity. Qed.

(** C5. Without an AI credential the classifier returns the default result
    and calls nothing.  When the one call it makes fails, by an exception of
    the provider or by a response that is not JSON, it shows a warning and
    returns the same default result, without calling again.  The default is
    General, Positive, Medium, 75, 60. *)
Theorem classifier_default_on_failure (w : World) :
  (ai_available self = false →
   analyze_with_gemini env self caption hashtags w
   = (Ok default_classification, w))
  ∧ (ai_available self = true →
     ∀ e, generate_content env (model_calls w) (prompt caption hashtags) = Raise e →
       analyze_with_gemini env self caption hashtags w
       = (Ok default_classification, notified (analysis_failed e) (called_model w)))
  ∧ (ai_available self = true →
     ∀ text e,
       generate_content env (model_calls w) (prompt caption hashtags) = Ok text →
       json_loads env text = Raise e →
       analyze_with_gemini env self caption hashtags w
       = (Ok default_classification, notified (analysis_failed e) (called_model w))).
Proof.
  unfold analyze_with_gemini, try_except. split; [|split].
  - by intros ->.
  - intros -> e He. cbn [negb].
    rewrite (bind_raise _ _ w (called_model w) e); [done|].
    rewrite model_generate_content_run. by rewrite He.
  - intros -> text e Htext He. cbn [negb].
    rewrite (bind_ok _ _ w (called_model w) text).
    + unfold lift. by rewrite He.
    + rewrite model_generate_content_run. by rewrite Htext.
Qed.

End Classifier.

Lemma classifier_default_on_failure_witness :
  InstagramAnalytics.ai_available unconfigured = false
  ∧ InstagramAnalytics.ai_available configured = true
  ∧ (InstagramAnalytics.analyze_with_gemini (world_of still_clock None)
       unconfigured "Hello #ui" ["#ui"] fresh_world).1
    = (InstagramAnalytics.analyze_with_gemini (world_of still_clock None)
         configured "Hello #ui" ["#ui"] fresh_world).1.
Proof.
  split; [reflexivity|]. split; [reflexivity|].
  destruct (classifier_default_on_failure (world_of still_clock None)
              unconfigured "Hello #ui" ["#ui"] fresh_world) as (Hnone & _).
  destruct (classifier_default_on_failure (world_of still_clock None)
              configured "Hello #ui" ["#ui"] fresh_world) as (_ & Hfail & _).
  rewrite (Hnone eq_refl).
  rewrite (Hfail eq_refl (Exn "ResourceExhausted" "quota exceeded") eq_refl).
  reflexivity.
Defined.


(** ** The cut-off of the two paths *)

Section Cutoff.
Context {UC : Unicode}.
Import InstagramAnalytics.

(** Case analysis on whether the window is the text [s]. *)
Ltac window_case tf s :=
  destruct (decide (tf = s)) as [->|?];
  [reflexivity
  |rewrite (bool_decide_eq_false_2 (tf = s)),
     (bool_decide_eq_false_2 (s = tf)) by congruence].

Lemma days_demo (time_filter : string) :
  dict_get time_filters_demo time_filter 30 = days time_filter.
Proof.
  unfold days, time_filters_demo. cbn [dict_get].
  window_case time_filter "Today". window_case time_filter "48 Hours".
  window_case time_filter "4 Days". window_case time_filter "Week".
  by case_bool_decide.
Qed.

Lemma days_live (time_filter : string) :
  dict_get time_filters_live time_filter 30 = days time_filter.
Proof.
  unfold days, time_filters_live. cbn [dict_get].
  window_case time_filter "Today". window_case time_filter "48 Hours".
  window_case time_filter "4 Days". window_case time_filter "Week".
  by case_bool_decide.
Qed.

(** C2, as the code has it.  Both paths compute the cut-off as the clock
    reading minus [days] of the time window, with the same [days]: 1, 2, 4, 7
    and 30 for the five windows and 30 for any other text.  The demo path
    keeps a generated record if and only if its timestamp is not before that
    cut-off.  The live path hands the cut-off to the provider as [dateFrom]
    and does not look at the timestamps of what comes back: the records of
    all returned items are kept, up to the kind filter and the limit. *)
Theorem cutoff_rule (env : Env) (self : t) (hashtags : list string)
    (time_filter post_type : string) (limit : Z) (w : World) :
  (days "Today" = 1 ∧ days "48 Hours" = 2 ∧ days "4 Days" = 4
   ∧ days "Week" = 7 ∧ days "Month" = 30)
  ∧ (time_filter ∉ ["Today"; "48 Hours"; "4 Days"; "Week"; "Month"] →
     days time_filter = 30)
  ∧ dict_get time_filters_demo time_filter 30 = days time_filter
  ∧ dict_get time_filters_live time_filter 30 = days time_filter
  ∧ (let n := Z.to_nat limit in
     let now := clock env (clock_reads w + n) in
     _get_demo_data env hashtags time_filter post_type limit w
     = (Ok (filter (λ post, retained now time_filter
                              (instant (Post.timestamp post)))
              (mock_list env hashtags post_type n w)),
        tick (S n) w))
  ∧ ai_dateFrom (live_input env self hashtags time_filter limit w)
    = clock env (clock_reads w) - timedelta (days time_filter)
  ∧ (∀ items posts w',
       actor env (actor_runs w) (live_input env self hashtags time_filter limit w)
       = Ok items →
       mapM (post_data env) items (ran_actor (tick 1 w)) = (Ok posts, w') →
       scrape_live env self hashtags time_filter post_type limit w
       = (Ok (slice_to limit (kind_filter post_type posts)), w')).
Proof.
  split; [done|]. split.
  { intros Hnot. unfold days.
    repeat (case_bool_decide as H;
            [subst; exfalso; apply Hnot; repeat constructor|clear H]).
    done. }
  split; [apply days_demo|]. split; [apply days_live|]. split.
  { intros n now. subst now. unfold retained, retained_dec.
    rewrite <- days_demo. apply get_demo_data_run. }
  split.
  { unfold live_input, actor_input. cbn [ai_dateFrom]. by rewrite days_live. }
  intros items posts w' Hitems Hposts. by eapply scrape_live_ok.
Qed.

End Cutoff.

Section Examples5.
#[local] Existing Instance plain_case.

Lemma cutoff_rule_witness :
  ("Fortnight" ∉ ["Today"; "48 Hours"; "4 Days"; "Week"; "Month"])
  ∧ days "Fortnight" = 30
  ∧ actor (world_of still_clock (Some [old_item])) 0
      (live_input (world_of still_clock (Some [old_item])) configured
         ["#design"] "Today" 10 fresh_world)
    = Ok [old_item]
  ∧ Post.timestamp <$>
      returned (InstagramAnalytics.scrape_live
                  (world_of still_clock (Some [old_item])) configured
                  ["#design"] "Today" "all" 10 fresh_world)
    = [DateTime (timedelta 1) true].
Proof.
  assert ("Fortnight" ∉ ["Today"; "48 Hours"; "4 Days"; "Week"; "Month"]) as Hnot.
  { intros H. repeat (apply elem_of_cons in H as [H|H]; [discriminate H|]).
    by apply elem_of_nil in H. }
  destruct (cutoff_rule (world_of still_clock (Some [old_item])) configured
              ["#design"] "Fortnight" "all" 10 fresh_world)
    as (_ & Hother & _).
  destruct (cutoff_rule (world_of still_clock (Some [old_item])) configured
              ["#design"] "Today" "all" 10 fresh_world)
    as (_ & _ & _ & _ & _ & _ & Hlive).
  split; [exact Hnot|]. split; [exact (Hother Hnot)|]. split; [reflexivity|].
  rewrite (Hlive [old_item] _ _ eq_refl eq_refl). reflexivity.
Defined.

(** C2 as stated fails on the live path: with the window Today, an item the
    provider returns with a timestamp of 1970 is kept, although it is older
    than the cut-off of one day before the clock reading; the rule of the
    demo path drops a record of that age. *)
Lemma live_path_keeps_old_record :
  Post.timestamp <$>
    returned (InstagramAnalytics.scrape_instagram_posts
                (world_of still_clock (Some [old_item])) configured
                ["#design"] "Today" "all" 10 fresh_world)
  = [DateTime (timedelta 1) true]
  ∧ ¬ retained (still_clock 0) "Today" (timedelta 1)
  ∧ filter (retained (still_clock 0) "Today") [timedelta 1] = [].
Proof.
  split; [reflexivity|]. split; [|reflexivity].
  unfold retained. vm_compute. by intros H.
Qed.

End Examples5.


(** ** Saving credentials *)

Section Save.
Context {UC : Unicode}.
Import SecretsManager.
Variable yaml_dump : value → string.

Lemma write_text_dirs (p : FS.path) (content : string) (fs : FS.t) :
  FS.dirs (FS.write_text p content fs).2 = FS.dirs fs.
Proof. unfold FS.write_text. by repeat case_match. Qed.

Lemma write_text_ok (p : FS.path) (content : string) (fs : FS.t) :
  (FS.write_text p content fs).1 = Ok () →
  FS.files (FS.write_text p content fs).2 !! FS.full p = Some content
  ∧ FS.is_dir fs (FS.parent p) = true.
Proof.
  unfold FS.write_text.
  destruct (FS.is_dir fs (FS.parent p)); simpl; [|done].
  repeat case_match; simpl; try done.
  intros _. by rewrite lookup_insert_eq.
Qed.

Lemma mkdir_exist_ok_dirs (p : string) (fs : FS.t) :
  (FS.mkdir_exist_ok p fs).1 = Ok () →
  FS.is_dir (FS.mkdir_exist_ok p fs).2 p = true
  ∧ FS.dirs (FS.mkdir_exist_ok p fs).2 ⊆ {[p]} ∪ FS.dirs fs.
Proof.
  unfold FS.mkdir_exist_ok. destruct (FS.is_dir fs p) eqn:Hd; simpl.
  - intros _. split; [done | apply union_subseteq_r].
  - repeat case_match; simpl; try done. intros _. split; [|done].
    unfold FS.is_dir, FS.with_dir. simpl.
    rewrite (bool_decide_eq_true_2 (p ∈ _))
      by (apply elem_of_union_l; by apply elem_of_singleton).
    apply orb_true_r.
Qed.

(** The save is the preparation of the directory followed by one write. *)
Lemma save_secrets_to_file_steps (secrets_dict : list (string * string))
    (file_type : string) (fs : FS.t) :
  file_type ∈ ["toml"; "env"; "yaml"] →
  save_secrets_to_file yaml_dump secrets_dict file_type fs =
  match prepare file_type fs with
  | (Ok _, fs1) =>
      FS.write_text (target file_type)
        (saved_text yaml_dump secrets_dict file_type) fs1
  | (Raise e, fs1) => (Raise e, fs1)
  end.
Proof.
  intros H. unfold save_secrets_to_file, prepare, target, saved_text.
  repeat (apply elem_of_cons in H as [->|H]); [done..|].
  by apply elem_of_nil in H.
Qed.

(** C6, as the code has it.  For each of the three formats the save first
    makes sure of the directory of its target (it creates [.streamlit] for
    the key-value format; the other two targets are in the working directory
    and no directory is created for them) and then writes the text of the
    format, which for the structured config is the dump of the given keys
    together with the default application settings.  Nothing is caught: an
    error of the directory creation or of the write is raised to the caller,
    after a failed write with whatever part of the text the device took. *)
Theorem save_secrets_to_file_spec (secrets_dict : list (string * string))
    (file_type : string) (fs : FS.t) :
  file_type ∈ ["toml"; "env"; "yaml"] →
  let run := save_secrets_to_file yaml_dump secrets_dict file_type fs in
  let text := saved_text yaml_dump secrets_dict file_type in
  (run.1 = Ok () →
     FS.files run.2 !! FS.full (target file_type) = Some text
     ∧ FS.is_dir run.2 (FS.parent (target file_type)) = true)
  ∧ FS.dirs run.2 ⊆ {[".streamlit"]} ∪ FS.dirs fs
  ∧ (file_type ≠ "toml" → FS.dirs run.2 = FS.dirs fs)
  ∧ (∀ e fs1, prepare file_type fs = (Raise e, fs1) → run = (Raise e, fs1))
  ∧ (∀ e fs1 fs2,
       prepare file_type fs = (Ok (), fs1) →
       FS.write_text (target file_type) text fs1 = (Raise e, fs2) →
       run = (Raise e, fs2))
  ∧ (file_type = "yaml" →
     text = yaml_dump
              (VDict [ ("api_keys", VDict (prod_map id VStr <$> secrets_dict));
                       ("app_settings",
                        VDict [ ("debug_mode", VBool false);
                                ("cache_enabled", VBool true);
                                ("max_posts_per_request", VInt 100) ]) ])).
Proof.
  intros Hfmt run text. subst run text.
  rewrite save_secrets_to_file_steps by done.
  split; [|split; [|split; [|split; [|split]]]].
  - destruct (prepare file_type fs) as [[[]|e] fs1] eqn:Hprep; [|done].
    intros Hok. apply write_text_ok in Hok as [Hfile Hparent].
    split; [done|].
    unfold FS.is_dir in *. rewrite write_text_dirs. done.
  - destruct (prepare file_type fs) as [[[]|e] fs1] eqn:Hprep; simpl.
    + rewrite write_text_dirs. unfold prepare in Hprep.
      case_bool_decide.
      * pose proof (mkdir_exist_ok_dirs ".streamlit" fs) as Hm.
        rewrite Hprep in Hm. simpl in Hm. by apply Hm.
      * injection Hprep as <-. apply union_subseteq_r.
    + unfold prepare in Hprep. case_bool_decide; [|done].
      unfold FS.mkdir_exist_ok in Hprep.
      repeat case_match; simplify_eq; apply union_subseteq_r.
  - intros Hne. unfold prepare. rewrite bool_decide_eq_false_2 by done.
    by rewrite write_text_dirs.
  - by intros e fs1 ->.
  - by intros e fs1 fs2 -> ->.
  - by intros ->.
Qed.

End Save.

Section Examples6.
#[local] Existing Instance plain_case.

Lemma save_secrets_to_file_spec_witness :
  ("toml" ∈ ["toml"; "env"; "yaml"])
  ∧ FS.dirs (SecretsManager.save_secrets_to_file no_yaml
               [("apify_token", "t")] "toml" (small_disk 100)).2
    ⊆ {[".streamlit"]} ∪ FS.dirs (small_disk 100).
Proof.
  assert ("toml" ∈ ["toml"; "env"; "yaml"]) as H by apply list_elem_of_here.
  split; [exact H|].
  apply (save_secrets_to_file_spec no_yaml [("apify_token", "t")] "toml"
           (small_disk 100) H).
Defined.

Example save_toml_example :
  let run := SecretsManager.save_secrets_to_file no_yaml
               [("apify_token", "t"); ("proxy_url", "")] "toml" (small_disk 100) in
  run.1 = Ok ()
  ∧ FS.is_dir run.2 ".streamlit" = true
  ∧ FS.files run.2 !! ".streamlit/secrets.toml"
    = Some ("APIFY_TOKEN = " +:+ dq +:+ "t" +:+ dq +:+ nl).
Proof. repeat split; reflexivity. Qed.

(** C6 as stated fails: a write the device cannot take in full is not
    best-effort.  Saving the environment-style file with room for five
    characters leaves the first five in the file and raises. *)
Lemma save_raises_on_partial_write :
  let run := SecretsManager.save_secrets_to_file no_yaml
               [("apify_token", "secret")] "env" (small_disk 5) in
  run.1 = Raise (Exn "OSError" "No space left on device")
  ∧ FS.files run.2 !! ".env" = Some "APIFY".
Proof. split; reflexivity. Qed.

End Examples6.


(** * Further properties of the code *)

(** ** Reading the credential set *)

Section Getters.
Context {UC : Unicode}.
Import SecretsManager.

Implicit Types (api_keys acc : gmap string string) (src : Sources).

Lemma forallb_filter_negb {A} (f : A → bool) (l : list A) :
  forallb f l = true ↔ List.filter (λ x, negb (f x)) l = [].
Proof.
  induction l as [|x l IH]; simpl; [done|].
  destruct (f x); simpl; [done|]. split; discriminate.
Qed.

Lemma first_nonempty_nonempty (l : list string) :
  first_nonempty l ≠ "" ↔ ∃ s, s ∈ l ∧ s ≠ "".
Proof.
  induction l as [|a l IH]; simpl.
  - split; [done|]. intros (s & Hs & _). by apply elem_of_nil in Hs.
  - destruct a as [|c a]; simpl.
    + rewrite IH. split.
      * intros (s & Hs & Hne). exists s. split; [by right | done].
      * intros (s & Hs & Hne). apply elem_of_cons in Hs as [->|Hs]; [done|eauto].
    + split; [|done]. intros _. exists (String c a). split; [by left | done].
Qed.

(** X1. The two checks on the required keys agree: all required keys are
    there exactly when the list of missing keys is empty, and a key is
    listed as missing exactly when it is one of [apify_token] and
    [gemini_api_key] and [get_secret] gives the empty string for it.  The
    missing keys are listed in the order of the required keys. *)
Theorem missing_keys_spec api_keys :
  (has_required_keys api_keys = true ↔ get_missing_keys api_keys = [])
  ∧ (∀ key, key ∈ get_missing_keys api_keys
            ↔ key ∈ required_keys ∧ get_secret api_keys key = "")
  ∧ get_missing_keys api_keys `sublist_of` required_keys.
Proof.
  unfold has_required_keys, get_missing_keys. split; [|split].
  - apply forallb_filter_negb.
  - intros key. rewrite !list_elem_of_In, filter_In, negb_true_iff.
    rewrite <- not_true_iff_false, truthy_str_spec. split.
    + intros [Hin Hk]. split; [done|].
      by destruct (decide (get_secret api_keys key = "")).
    + intros [Hin ->]. split; [done|]. by intros Hne.
  - generalize required_keys. intros l.
    induction l as [|x l IH]; simpl; [done|].
    destruct (negb _); [by apply sublist_skip | by apply sublist_cons].
Qed.

(** X2. A freshly built manager has all required keys exactly when, for
    each of [APIFY_TOKEN] and [GEMINI_API_KEY], at least one of the four
    sources yields a non-empty value.  The three optional credentials play
    no part. *)
Theorem has_required_keys_init src :
  has_required_keys (init src) = true
  ↔ (∃ s, s ∈ [from_streamlit src "APIFY_TOKEN"; from_env src "APIFY_TOKEN";
               from_toml src "APIFY_TOKEN"; from_yaml src "apify_token"]
          ∧ s ≠ "")
    ∧ (∃ s, s ∈ [from_streamlit src "GEMINI_API_KEY"; from_env src "GEMINI_API_KEY";
                 from_toml src "GEMINI_API_KEY"; from_yaml src "gemini_api_key"]
            ∧ s ≠ "").
Proof.
  unfold has_required_keys, required_keys. cbn [forallb].
  rewrite andb_true_r, andb_true_iff, !truthy_str_spec.
  rewrite (init_get_secret src "APIFY_TOKEN" "apify_token")
    by (unfold credential_names; apply list_elem_of_here).
  rewrite (init_get_secret src "GEMINI_API_KEY" "gemini_api_key")
    by (unfold credential_names; apply list_elem_of_further, list_elem_of_here).
  by rewrite !first_nonempty_nonempty.
Qed.

End Getters.

Section KeyCase.
Context {UC : Unicode}.
Import SecretsManager.

Implicit Types (api_keys acc : gmap string string) (src : Sources).

Lemma lower_ascii_idemp (c : ascii) : lower_ascii (lower_ascii c) = lower_ascii c.
Proof. destruct c as [[] [] [] [] [] [] [] []]; reflexivity. Qed.

Lemma lower_upper_ascii (c : ascii) : lower_ascii (upper_ascii c) = lower_ascii c.
Proof. destruct c as [[] [] [] [] [] [] [] []]; reflexivity. Qed.

Lemma ascii_lower_idemp (s : string) : ascii_lower (ascii_lower s) = ascii_lower s.
Proof. induction s as [|c s IH]; simpl; [done|]. by rewrite lower_ascii_idemp, IH. Qed.

Lemma ascii_lower_upper (s : string) : ascii_lower (ascii_upper s) = ascii_lower s.
Proof. induction s as [|c s IH]; simpl; [done|]. by rewrite lower_upper_ascii, IH. Qed.

Lemma is_ascii_lower (s : string) : is_ascii (ascii_lower s) = is_ascii s.
Proof.
  induction s as [|c s IH]; simpl; [done|]. rewrite IH. f_equal.
  destruct c as [[] [] [] [] [] [] [] []]; reflexivity.
Qed.

Lemma is_ascii_upper (s : string) : is_ascii (ascii_upper s) = is_ascii s.
Proof.
  induction s as [|c s IH]; simpl; [done|]. rewrite IH. f_equal.
  destruct c as [[] [] [] [] [] [] [] []]; reflexivity.
Qed.

Lemma lower_ascii_text (s : string) : is_ascii s = true → lower s = ascii_lower s.
Proof. intros Hs. unfold lower. by rewrite Hs. Qed.

Lemma upper_ascii_text (s : string) : is_ascii s = true → upper s = ascii_upper s.
Proof. intros Hs. unfold upper. by rewrite Hs. Qed.

(** X3. For a key of ASCII text [get_secret] folds the case of the key it
    is asked for: the upper case and the lower case spelling of the key give
    the same value.  It reads lower case entries only: a key without an
    entry under its lower case spelling gives the empty string, and an
    entry stored under a key that is not in lower case is never returned. *)
Theorem get_secret_folds_case api_keys (key : string) :
  is_ascii key = true →
  get_secret api_keys (upper key) = get_secret api_keys key
  ∧ get_secret api_keys (lower key) = get_secret api_keys key
  ∧ (api_keys !! lower key = None → get_secret api_keys key = "")
  ∧ (∀ stored v, lower stored ≠ stored →
       get_secret (<[stored := v]> api_keys) key = get_secret api_keys key).
Proof.
  intros Hkey. unfold get_secret.
  rewrite (upper_ascii_text key Hkey), (lower_ascii_text key Hkey).
  rewrite (lower_ascii_text (ascii_upper key))
    by (by rewrite is_ascii_upper).
  rewrite (lower_ascii_text (ascii_lower key))
    by (by rewrite is_ascii_lower).
  split; [by rewrite ascii_lower_upper|].
  split; [by rewrite ascii_lower_idemp|]. split.
  - intros Hnone. unfold get_str. by rewrite Hnone.
  - intros stored v Hs. rewrite get_str_insert.
    case_bool_decide as Heq; [|done].
    exfalso. apply Hs. subst stored.
    rewrite lower_ascii_text by (by rewrite is_ascii_lower).
    apply ascii_lower_idemp.
Qed.

(** Case analysis on a key that is none of the five credentials. *)
Ltac other_key H :=
  unfold credential_names in H; cbn [fmap list_fmap snd] in H;
  repeat (apply not_elem_of_cons in H as [? H]);
  repeat (rewrite bool_decide_eq_false_2 by congruence).

Lemma load_streamlit_other src acc (k : string) :
  k ∉ credential_names.*2 → get_str (load_streamlit src acc) k = get_str acc k.
Proof.
  intros H. unfold load_streamlit. destruct (st_secrets src) as [m|]; [|done].
  cbn [foldl credential_names]. rewrite !get_str_insert. by other_key H.
Qed.

Lemma load_env_other src acc (k : string) :
  k ∉ credential_names.*2 → get_str (load_env src acc) k = get_str acc k.
Proof.
  intros H. unfold load_env, env_keys.
  cbn [foldl credential_names fmap list_fmap]. rewrite !get_str_fill.
  by other_key H.
Qed.

Lemma load_toml_other src acc (k : string) :
  k ∉ credential_names.*2 → get_str (load_toml src acc) k = get_str acc k.
Proof.
  intros H. unfold load_toml. destruct (secrets_toml src) as [data|]; [|done].
  assert (∀ acc' (key : string), lower key ≠ k →
    get_str (match data !! key with
             | Some v => if negb (Py.get_truthy acc' (lower key))
                         then <[lower key := v]> acc' else acc'
             | None => acc'
             end) k = get_str acc' k) as Hstep.
  { intros acc' key Hne. destruct (data !! key); [|done].
    destruct (negb _); [|done]. rewrite get_str_insert.
    by rewrite bool_decide_eq_false_2. }
  unfold credential_names in H. cbn [fmap list_fmap snd] in H.
  repeat (apply not_elem_of_cons in H as [? H]).
  cbn [foldl credential_names fmap list_fmap fst].
  rewrite !Hstep; [done|intros <-; vm_compute in *; congruence..].
Qed.

(** X4. Keys other than the five credentials come from the config file
    only: for a key whose lower case spelling is none of the five, a freshly
    built manager returns what the [api_keys] section of the config file
    holds under that lower case spelling (the empty string when the file is
    missing or has no such entry), whatever the other three sources hold. *)
Theorem other_keys_from_config src (key : string) :
  lower key ∉ credential_names.*2 →
  get_secret (init src) key = from_yaml src (lower key).
Proof.
  intros H. unfold get_secret, init, load_secrets.
  rewrite load_yaml_get_str, load_toml_other, load_env_other,
    load_streamlit_other, get_str_empty by done.
  simpl. by destruct (from_yaml src (lower key)).
Qed.

(** The value of a credential after [load_secrets] on any manager. *)
Lemma load_secrets_get_str src acc (K k : string) :
  (K, k) ∈ credential_names →
  get_str (load_secrets src acc) k =
  first_nonempty
    [match st_secrets src with Some m => get_str m K | None => get_str acc k end;
     from_env src K; from_toml src K; from_yaml src k].
Proof.
  intros H. unfold load_secrets.
  by rewrite load_yaml_get_str, (load_toml_get_str _ _ K), (load_env_get_str _ _ K),
    (load_streamlit_get_str _ _ K), first_nonempty_flatten.
Qed.

(** X5. Loading again.  For each of the five credentials, a second
    [load_secrets] from the same sources changes nothing.  When the hosted
    store can be read, [load_secrets] on any manager gives what a freshly
    built manager gives; when it cannot, a value the manager already holds
    stays, whatever the other sources say. *)
Theorem load_secrets_again src acc (K k : string) :
  (K, k) ∈ credential_names →
  get_secret (load_secrets src (load_secrets src acc)) k
    = get_secret (load_secrets src acc) k
  ∧ (is_Some (st_secrets src) →
     get_secret (load_secrets src acc) k = get_secret (init src) k)
  ∧ (st_secrets src = None → get_secret acc k ≠ "" →
     get_secret (load_secrets src acc) k = get_secret acc k).
Proof.
  intros H. unfold get_secret, init.
  destruct (lower_credential K k H) as [-> _].
  rewrite !(load_secrets_get_str _ _ K k H).
  destruct (st_secrets src) as [m|]; split.
  - done.
  - done.
  - simpl. destruct (get_str acc k) as [|c a]; simpl.
    + by destruct (from_env src K), (from_toml src K), (from_yaml src k).
    + done.
  - split; [by intros [? ?]|]. intros _ Hne. simpl.
    apply truthy_str_spec in Hne. by rewrite Hne.
Qed.

End KeyCase.

Section Examples7.
#[local] Existing Instance plain_case.

Lemma get_secret_folds_case_witness :
  is_ascii "Apify_Token" = true
  ∧ lower "Apify_Token" ≠ "Apify_Token"
  ∧ SecretsManager.get_secret (<["Apify_Token" := "t"]> ∅) "Apify_Token" = "".
Proof.
  assert (lower "Apify_Token" ≠ "Apify_Token") as H by discriminate.
  split; [reflexivity|]. split; [exact H|].
  destruct (get_secret_folds_case ∅ "Apify_Token" eq_refl)
    as (_ & _ & _ & Hhidden).
  rewrite (Hhidden "Apify_Token" "t" H). reflexivity.
Defined.

(** Outside ASCII the two spellings can differ: the upper case of the sharp
    s is [SS], whose lower case is [ss]. *)
Remark get_secret_sharp_s :
  @SecretsManager.get_secret sharp_s_case {[ "ss" := "v" ]}
    (@upper sharp_s_case "ß") = "v"
  ∧ @SecretsManager.get_secret sharp_s_case {[ "ss" := "v" ]} "ß" = "".
Proof. split; reflexivity. Qed.

Lemma other_keys_from_config_witness :
  (lower "Custom_Key" ∉ SecretsManager.credential_names.*2)
  ∧ SecretsManager.get_secret
      (SecretsManager.init
         {| SecretsManager.st_secrets := Some {[ "CUSTOM_KEY" := "hosted" ]};
            SecretsManager.os_environ := {[ "CUSTOM_KEY" := "env" ]};
            SecretsManager.secrets_toml := Some {[ "CUSTOM_KEY" := "file" ]};
            SecretsManager.config_yaml := Some {[ "custom_key" := "config" ]} |})
      "Custom_Key"
    = "config".
Proof.
  assert (lower "Custom_Key" ∉ SecretsManager.credential_names.*2) as H.
  { cbn. intros Hin.
    repeat (apply elem_of_cons in Hin as [Hin|Hin]; [discriminate Hin|]).
    by apply elem_of_nil in Hin. }
  split; [exact H|].
  rewrite (other_keys_from_config _ "Custom_Key" H). reflexivity.
Defined.

Lemma load_secrets_again_witness :
  (("APIFY_TOKEN", "apify_token") ∈ SecretsManager.credential_names)
  ∧ SecretsManager.get_secret
      (SecretsManager.load_secrets scenario_sources {[ "apify_token" := "old" ]})
      "apify_token"
    = "old".
Proof.
  assert (("APIFY_TOKEN", "apify_token") ∈ SecretsManager.credential_names) as H
    by apply list_elem_of_here.
  split; [exact H|].
  destruct (load_secrets_again scenario_sources {[ "apify_token" := "old" ]} _ _ H)
    as (_ & _ & Hkeep).
  rewrite Hkeep; [reflexivity | reflexivity | discriminate].
Defined.

End Examples7.


(** ** The text of the saved files *)

Section SavedText.
Context {UC : Unicode}.
Import SecretsManager.
Variable yaml_dump : value → string.

Lemma toml_content_empty (secrets_dict : list (string * string)) :
  Forall (λ kv, kv.2 = "") secrets_dict → toml_content secrets_dict = "".
Proof.
  induction 1 as [|[k v] l Hv _ IH]; simpl in *; [done|]. by rewrite Hv, IH.
Qed.

Lemma env_content_empty (secrets_dict : list (string * string)) :
  Forall (λ kv, kv.2 = "") secrets_dict → env_content secrets_dict = "".
Proof.
  induction 1 as [|[k v] l Hv _ IH]; simpl in *; [done|]. by rewrite Hv, IH.
Qed.

(** X6. The two line formats leave out the credentials whose value is
    empty: the text is that of the non-empty entries alone.  So saving a map
    in which every value is empty, in either line format, succeeds with an
    empty file, which replaces whatever the file held before. *)
Theorem save_skips_empty_values (secrets_dict : list (string * string))
    (file_type : string) (fs : FS.t) :
  file_type ∈ ["toml"; "env"] →
  toml_content secrets_dict
    = toml_content (filter (λ kv, kv.2 ≠ "") secrets_dict)
  ∧ env_content secrets_dict
    = env_content (filter (λ kv, kv.2 ≠ "") secrets_dict)
  ∧ (Forall (λ kv, kv.2 = "") secrets_dict →
     (save_secrets_to_file yaml_dump secrets_dict file_type fs).1 = Ok () →
     FS.files (save_secrets_to_file yaml_dump secrets_dict file_type fs).2
       !! FS.full (target file_type) = Some "").
Proof.
  intros Hfmt. split; [|split].
  - induction secrets_dict as [|[k v] l IH]; [done|].
    rewrite filter_cons. simpl. destruct v as [|c v]; simpl.
    + exact IH.
    + by rewrite IH.
  - induction secrets_dict as [|[k v] l IH]; [done|].
    rewrite filter_cons. simpl. destruct v as [|c v]; simpl.
    + exact IH.
    + by rewrite IH.
  - intros Hall Hok.
    assert (file_type ∈ ["toml"; "env"; "yaml"]) as Hfmt3.
    { apply elem_of_cons in Hfmt as [->|Hfmt]; [apply list_elem_of_here|].
      apply elem_of_cons in Hfmt as [->|Hfmt];
        [apply list_elem_of_further, list_elem_of_here|].
      by apply elem_of_nil in Hfmt. }
    assert (saved_text yaml_dump secrets_dict file_type = "") as Htext.
    { unfold saved_text.
      apply elem_of_cons in Hfmt as [->|Hfmt]; [by apply toml_content_empty|].
      apply elem_of_cons in Hfmt as [->|Hfmt]; [by apply env_content_empty|].
      by apply elem_of_nil in Hfmt. }
    rewrite save_secrets_to_file_steps in Hok |- * by done.
    rewrite Htext in Hok |- *.
    destruct (prepare file_type fs) as [[[]|e] fs1]; [|done].
    by apply write_text_ok in Hok as [-> _].
Qed.

Lemma string_app_assoc (a b c : string) : (a +:+ b) +:+ c = a +:+ (b +:+ c).
Proof.
  induction a as [|x a IH]; [done|].
  change (String x ((a +:+ b) +:+ c) = String x (a +:+ (b +:+ c))).
  f_equal. exact IH.
Qed.

Lemma truthy_str_app (a b : string) : a ≠ "" → truthy_str (a +:+ b) = true.
Proof. by destruct a. Qed.

(** X7. Values are written as they are, with no escaping.  A value that
    holds a line break, and in the key-value format a double quote before
    it, gives the very text that two separate credentials give, so the text
    of a file does not determine the credentials that were saved. *)
Theorem saved_text_no_escaping (k1 k2 a b : string) :
  a ≠ "" → b ≠ "" →
  toml_content [(k1, a +:+ dq +:+ nl +:+ upper k2 +:+ " = " +:+ dq +:+ b)]
    = toml_content [(k1, a); (k2, b)]
  ∧ env_content [(k1, a +:+ nl +:+ upper k2 +:+ "=" +:+ b)]
    = env_content [(k1, a); (k2, b)].
Proof.
  intros Ha Hb. simpl.
  rewrite !truthy_str_app by done.
  apply truthy_str_spec in Ha, Hb. rewrite Ha, Hb.
  split; by rewrite !string_app_assoc.
Qed.

End SavedText.

Section Examples8.
#[local] Existing Instance plain_case.

Lemma save_skips_empty_values_witness :
  ("env" ∈ ["toml"; "env"])
  ∧ FS.files used_disk !! ".env" = Some "APIFY_TOKEN=old"
  ∧ FS.files (SecretsManager.save_secrets_to_file no_yaml
                [("apify_token", ""); ("gemini_api_key", "")] "env" used_disk).2
      !! ".env" = Some "".
Proof.
  assert ("env" ∈ ["toml"; "env"]) as H
    by apply list_elem_of_further, list_elem_of_here.
  split; [exact H|]. split; [reflexivity|].
  destruct (save_skips_empty_values no_yaml
              [("apify_token", ""); ("gemini_api_key", "")] "env" used_disk H)
    as (_ & _ & Hwipe).
  apply Hwipe; [|reflexivity]. by repeat constructor.
Defined.

Lemma saved_text_no_escaping_witness :
  "a" ≠ "" ∧ "b" ≠ ""
  ∧ SecretsManager.env_content
      [("apify_token", "a" +:+ nl +:+ "PROXY_URL=b")]
    = SecretsManager.env_content [("apify_token", "a"); ("proxy_url", "b")].
Proof.
  assert ("a" ≠ "") as Ha by discriminate.
  assert ("b" ≠ "") as Hb by discriminate.
  split; [exact Ha|]. split; [exact Hb|].
  apply (saved_text_no_escaping "apify_token" "proxy_url" "a" "b" Ha Hb).
Defined.

End Examples8.


(** ** Normalizing the items of the provider *)

Section Normalize.
Import InstagramAnalytics.
Variable env : Env.

Lemma determine_post_type_kinds (item : Item.t) :
  _determine_post_type item ∈ ["posts"; "carousels"; "reels"].
Proof.
  unfold _determine_post_type. repeat case_match.
  - apply list_elem_of_further, list_elem_of_further, list_elem_of_here.
  - apply list_elem_of_further, list_elem_of_here.
  - apply list_elem_of_here.
Qed.

Lemma extract_hashtags_length (caption : string) :
  (length (_extract_hashtags env caption) ≤ 5)%nat.
Proof. unfold _extract_hashtags. rewrite length_take. lia. Qed.

(** X8. The counters of a normalized post.  Likes and comments are the
    item's counts, 0 when missing.  When the item has a video view count,
    both shares and views are that count; when it has none, shares are 0
    and views are ten times the likes.  The creator of an item without
    owner is [unknown], the kind is one of posts, carousels and reels, and
    there are at most five hashtags. *)
Theorem post_data_counters (item : Item.t) (w w' : World) (post : Post.t) :
  post_data env item w = (Ok post, w') →
  Post.likes post = default 0 (Item.likesCount item)
  ∧ Post.comments post = default 0 (Item.commentsCount item)
  ∧ (∀ n, Item.videoViewCount item = Some n →
       Post.shares post = n ∧ Post.views post = n)
  ∧ (Item.videoViewCount item = None →
       Post.shares post = 0 ∧ Post.views post = 10 * Post.likes post)
  ∧ (Item.ownerUsername item = None → Post.creator post = "unknown")
  ∧ Post.post_type post ∈ ["posts"; "carousels"; "reels"]
  ∧ (length (Post.hashtags post) ≤ 5)%nat.
Proof.
  unfold post_data, mbind, M_bind, mret, M_ret.
  match goal with
  | |- context [let (_, _) := ?m in _] => destruct m as [[ts|e] w1]; [|done]
  end.
  intros [= <- <-]. cbn [Post.likes Post.comments Post.shares Post.views
                         Post.creator Post.post_type Post.hashtags].
  split; [done|]. split; [done|]. split.
  { intros n ->. done. }
  split.
  { intros ->. simpl. split; [done|lia]. }
  split; [by intros ->|].
  split; [apply determine_post_type_kinds | apply extract_hashtags_length].
Qed.

(** X9. The timestamp of a normalized post.  An item without timestamp, or
    with an empty one, gets the reading of the clock (one reading is taken).
    An item with a timestamp text gets what [fromisoformat] makes of the
    text with every [Z] replaced by [+00:00], and the clock is not read;
    when [fromisoformat] rejects it, the normalization raises that error and
    builds no post. *)
Theorem post_data_timestamp (item : Item.t) (w : World) :
  (Item.timestamp item = None ∨ Item.timestamp item = Some "" →
   ∃ post, post_data env item w = (Ok post, tick 1 w)
           ∧ Post.timestamp post = naive (clock env (clock_reads w)))
  ∧ (∀ s t, Item.timestamp item = Some s → s ≠ "" →
       fromisoformat env (replace_Z s) = Ok t →
       ∃ post, post_data env item w = (Ok post, w) ∧ Post.timestamp post = t)
  ∧ (∀ s e, Item.timestamp item = Some s → s ≠ "" →
       fromisoformat env (replace_Z s) = Raise e →
       post_data env item w = (Raise e, w)).
Proof.
  unfold post_data. split; [|split].
  - intros [-> | ->]; simpl;
      rewrite (bind_ok _ _ w (tick 1 w) (naive (clock env (clock_reads w))))
        by (by rewrite (bind_ok _ _ _ _ _ (datetime_now_run env w)));
      eexists; (split; [reflexivity|done]).
  - intros s t -> Hs Ht. apply truthy_str_spec in Hs. rewrite Hs.
    rewrite (bind_ok _ _ w w t) by (unfold lift; by rewrite Ht).
    eexists; (split; [reflexivity|done]).
  - intros s e -> Hs He. apply truthy_str_spec in Hs. rewrite Hs.
    apply bind_raise. unfold lift. by rewrite He.
Qed.

End Normalize.

Lemma post_data_counters_witness :
  ∃ post,
    InstagramAnalytics.post_data (world_of still_clock None) old_item fresh_world
    = (Ok post, fresh_world)
    ∧ Item.videoViewCount old_item = None
    ∧ Post.views post = 10 * Post.likes post.
Proof.
  eexists. split; [reflexivity|]. split; [reflexivity|].
  by apply (post_data_counters (world_of still_clock None) old_item
              fresh_world fresh_world _ eq_refl).
Defined.

Lemma post_data_timestamp_witness :
  Item.timestamp empty_item = None
  ∧ (InstagramAnalytics.post_data (world_of still_clock None) empty_item
       fresh_world).2 = tick 1 fresh_world.
Proof.
  split; [reflexivity|].
  destruct (post_data_timestamp (world_of still_clock None) empty_item fresh_world)
    as (Hnone & _).
  destruct (Hnone (or_introl eq_refl)) as (post & -> & _). reflexivity.
Defined.


(** ** The result of a live fetch *)

Section LiveResult.
Context {UC : Unicode}.
Import InstagramAnalytics.
Variables (env : Env) (self : t).
Variables (hashtags : list string) (time_filter post_type : string) (limit : Z).

Lemma post_data_world (item : Item.t) (w w1 : World) (r : res Post.t) :
  post_data env item w = (r, w1) → w1 = w ∨ w1 = tick 1 w.
Proof.
  unfold post_data, mbind, M_bind, lift.
  destruct (Item.timestamp item) as [s|]; [destruct (truthy_str s)|].
  - destruct (fromisoformat env (replace_Z s)); intros [= _ <-]; by left.
  - rewrite datetime_now_run. simpl. intros [= _ <-]. by right.
  - rewrite datetime_now_run. simpl. intros [= _ <-]. by right.
Qed.

Lemma post_data_kind (item : Item.t) (w w1 : World) (post : Post.t) :
  post_data env item w = (Ok post, w1) →
  Post.post_type post ∈ ["posts"; "carousels"; "reels"]
  ∧ (length (Post.hashtags post) ≤ 5)%nat.
Proof.
  unfold post_data, mbind, M_bind, mret, M_ret.
  match goal with
  | |- context [let (_, _) := ?m in _] => destruct m as [[ts|e] w2]; [|done]
  end.
  intros [= <- _]. cbn [Post.post_type Post.hashtags].
  split; [apply determine_post_type_kinds | apply extract_hashtags_length].
Qed.

Lemma mapM_post_data_world (items : list Item.t) (w w' : World)
    (r : res (list Post.t)) :
  mapM (post_data env) items w = (r, w') →
  ∃ n, (n ≤ length items)%nat ∧ w' = tick n w.
Proof.
  revert w r. induction items as [|item items IH]; intros w r.
  - intros [= _ <-]. exists 0%nat. by rewrite tick_0.
  - cbn [mapM]. unfold mbind, M_bind.
    destruct (post_data env item w) as [[post|e] w1] eqn:Hpost.
    + destruct (mapM (post_data env) items w1) as [[posts|e] w2] eqn:Hrest;
        intros [= _ <-];
        apply IH in Hrest as (n & Hn & ->);
        apply post_data_world in Hpost as [-> | ->].
      * exists n. split; [simpl; lia|done].
      * exists (S n). split; [simpl; lia|]. by rewrite tick_tick.
      * exists n. split; [simpl; lia|done].
      * exists (S n). split; [simpl; lia|]. by rewrite tick_tick.
    + intros [= _ <-]. apply post_data_world in Hpost as [-> | ->].
      * exists 0%nat. split; [lia|]. by rewrite tick_0.
      * exists 1%nat. split; [simpl; lia|done].
Qed.

Lemma mapM_post_data_posts (items : list Item.t) (w w' : World)
    (posts : list Post.t) :
  mapM (post_data env) items w = (Ok posts, w') →
  length posts = length items
  ∧ Forall (λ post, Post.post_type post ∈ ["posts"; "carousels"; "reels"]
                    ∧ (length (Post.hashtags post) ≤ 5)%nat) posts.
Proof.
  revert w w' posts. induction items as [|item items IH]; intros w w' posts.
  - intros [= <- _]. by split.
  - cbn [mapM]. unfold mbind, M_bind.
    destruct (post_data env item w) as [[post|e] w1] eqn:Hpost; [|done].
    destruct (mapM (post_data env) items w1) as [[rest|e] w2] eqn:Hrest; [|done].
    intros [= <- _]. apply IH in Hrest as [Hlen Hall].
    split; [simpl; by rewrite Hlen|]. constructor; [|done].
    by apply post_data_kind in Hpost.
Qed.

Lemma scrape_live_inv (w w' : World) (posts : list Post.t) :
  scrape_live env self hashtags time_filter post_type limit w = (Ok posts, w') →
  ∃ items all,
    actor env (actor_runs w) (live_input env self hashtags time_filter limit w)
    = Ok items
    ∧ mapM (post_data env) items (ran_actor (tick 1 w)) = (Ok all, w')
    ∧ posts = slice_to limit (kind_filter post_type all).
Proof.
  unfold scrape_live. rewrite (bind_ok _ _ _ _ _ (datetime_now_run _ _)).
  unfold mbind at 1, M_bind at 1. rewrite actor_call_run.
  fold (live_input env self hashtags time_filter limit w).
  change (actor_runs (tick 1 w)) with (actor_runs w).
  destruct (actor env (actor_runs w) _) as [items|e] eqn:Hactor; [|done].
  unfold mbind, M_bind.
  destruct (mapM (post_data env) items (ran_actor (tick 1 w)))
    as [[all|e] w2] eqn:Hall; [|done].
  unfold mret, M_ret. intros [= <- <-]. by exists items, all.
Qed.

Lemma slice_to_length {A} (n : Z) (l : list A) :
  (length (slice_to n l) ≤ length l)%nat
  ∧ (0 ≤ n → (length (slice_to n l) ≤ Z.to_nat n)%nat).
Proof.
  unfold slice_to. destruct (0 <=? n) eqn:Hn; rewrite length_take.
  - split; lia.
  - apply Z.leb_gt in Hn. split; lia.
Qed.

Lemma slice_to_Forall {A} (P : A → Prop) (n : Z) (l : list A) :
  Forall P l → Forall P (slice_to n l).
Proof. unfold slice_to. destruct (0 <=? n); apply Forall_take. Qed.

Lemma lower_kind (kind : string) :
  kind ∈ ["posts"; "carousels"; "reels"] → lower kind = kind.
Proof.
  intros H. repeat (apply elem_of_cons in H as [->|H]; [reflexivity|]).
  by apply elem_of_nil in H.
Qed.

(** X10. What a successful live fetch returns.  Every post has one of the
    three kinds and at most five hashtags; there are no more posts than the
    provider returned items, and no more than [limit] when that is not
    negative.  With a kind filter other than [all], every post has exactly
    that kind, so a filter that is none of [all], [posts], [carousels] and
    [reels] (a capitalized one, say) returns nothing. *)
Theorem scrape_live_result (w w' : World) (posts : list Post.t) :
  scrape_live env self hashtags time_filter post_type limit w = (Ok posts, w') →
  Forall (λ post, Post.post_type post ∈ ["posts"; "carousels"; "reels"]
                  ∧ (length (Post.hashtags post) ≤ 5)%nat) posts
  ∧ (∃ items,
       actor env (actor_runs w) (live_input env self hashtags time_filter limit w)
       = Ok items
       ∧ (length posts ≤ length items)%nat)
  ∧ (0 ≤ limit → (length posts ≤ Z.to_nat limit)%nat)
  ∧ (post_type ≠ "all" → Forall (λ post, Post.post_type post = post_type) posts)
  ∧ (post_type ∉ ["all"; "posts"; "carousels"; "reels"] → posts = []).
Proof.
  intros (items & all & Hactor & Hall & ->)%scrape_live_inv.
  apply mapM_post_data_posts in Hall as [Hlen Hall].
  assert (Forall (λ post, Post.post_type post ∈ ["posts"; "carousels"; "reels"]
                          ∧ (length (Post.hashtags post) ≤ 5)%nat)
            (kind_filter post_type all)) as Hkept.
  { unfold kind_filter. destruct (negb _); [|done].
    rewrite Forall_forall in Hall. apply Forall_forall. intros post Hin.
    apply list_elem_of_filter in Hin as [_ Hin]. by apply Hall. }
  assert (post_type ≠ "all" →
          Forall (λ post, Post.post_type post = post_type)
            (kind_filter post_type all)) as Hkind.
  { intros Hne. unfold kind_filter. rewrite bool_decide_eq_false_2 by done.
    cbn [negb]. apply Forall_forall. intros post Hin.
    apply list_elem_of_filter in Hin as [Hlow Hin].
    rewrite Forall_forall in Hall. destruct (Hall post Hin) as [Hk _].
    by rewrite (lower_kind _ Hk) in Hlow. }
  split; [by apply slice_to_Forall|]. split.
  { exists items. split; [done|].
    etransitivity; [apply (proj1 (slice_to_length _ _))|].
    rewrite <- Hlen. unfold kind_filter. destruct (negb _); [|done].
    apply length_filter. }
  split; [apply slice_to_length|]. split.
  { intros Hne. by apply slice_to_Forall, Hkind. }
  intros Hnot.
  assert (post_type ≠ "all") as Hne.
  { intros ->. apply Hnot, list_elem_of_here. }
  destruct (slice_to limit (kind_filter post_type all)) as [|post rest] eqn:Hs;
    [done|].
  exfalso. apply Hnot, list_elem_of_further.
  assert (post ∈ slice_to limit (kind_filter post_type all)) as Hin
    by (rewrite Hs; apply list_elem_of_here).
  pose proof (slice_to_Forall _ limit _ Hkept) as H1.
  pose proof (slice_to_Forall _ limit _ (Hkind Hne)) as H2.
  rewrite Forall_forall in H1, H2.
  rewrite <- (H2 post Hin). by apply H1.
Qed.

End LiveResult.

Section Examples9.
#[local] Existing Instance plain_case.

Lemma scrape_live_result_witness :
  ("Posts" ∉ ["all"; "posts"; "carousels"; "reels"])
  ∧ InstagramAnalytics.scrape_live (world_of still_clock (Some [old_item]))
      configured ["#design"] "Week" "Posts" 10 fresh_world
    = (Ok [], ran_actor (tick 1 fresh_world)).
Proof.
  assert ("Posts" ∉ ["all"; "posts"; "carousels"; "reels"]) as Hnot.
  { intros H. repeat (apply elem_of_cons in H as [H|H]; [discriminate H|]).
    by apply elem_of_nil in H. }
  split; [exact Hnot|].
  destruct (InstagramAnalytics.scrape_live (world_of still_clock (Some [old_item]))
              configured ["#design"] "Week" "Posts" 10 fresh_world)
    as [[posts|e] w'] eqn:Hrun; [|discriminate Hrun].
  destruct (scrape_live_result _ _ _ _ _ _ _ _ _ Hrun) as (_ & _ & _ & _ & Hnone).
  rewrite (Hnone Hnot) in Hrun |- *. injection Hrun as <-. reflexivity.
Defined.

End Examples9.


(** ** What a fetch does to the session *)

Section FetchEffects.
Context {UC : Unicode}.
Import InstagramAnalytics.
Variables (env : Env) (self : t).
Variables (hashtags : list string) (time_filter post_type : string) (limit : Z).

Lemma scrape_live_world (w w1 : World) (r : res (list Post.t)) :
  scrape_live env self hashtags time_filter post_type limit w = (r, w1) →
  ∃ n, w1 = ran_actor (tick (S n) w).
Proof.
  unfold scrape_live. rewrite (bind_ok _ _ _ _ _ (datetime_now_run _ _)).
  unfold mbind at 1, M_bind at 1. rewrite actor_call_run.
  destruct (actor env _ _) as [items|e].
  - unfold mbind, M_bind.
    destruct (mapM (post_data env) items (ran_actor (tick 1 w)))
      as [[all|e] w2] eqn:Hall;
      apply mapM_post_data_world in Hall as (n & _ & ->);
      intros [= _ <-]; exists n; unfold ran_actor, tick; simpl; f_equal; lia.
  - intros [= _ <-]. by exists 0%nat.
Qed.

(** X11. What a fetch does besides returning posts.  It starts exactly one
    run of the scraping actor when the provider is available and none when
    it is not; it never calls the AI model and never touches the bookmarks;
    it reads the clock at least once.  It shows no notice when the live
    fetch succeeds and exactly one otherwise: the warning that the provider
    is not configured, or the error with the message of the exception. *)
Theorem scrape_effects (w w' : World) (r : res (list Post.t)) :
  scrape_instagram_posts env self hashtags time_filter post_type limit w = (r, w') →
  actor_runs w' = (actor_runs w + if scraping_available self then 1 else 0)%nat
  ∧ model_calls w' = model_calls w
  ∧ bookmarks w' = bookmarks w
  ∧ (clock_reads w < clock_reads w')%nat
  ∧ (scraping_available self = false →
     notices w' = (notices w
       ++ [Notice Warning "⚠️ Apify not configured. Using demo data."])%list)
  ∧ (scraping_available self = true → ∀ posts w1,
       scrape_live env self hashtags time_filter post_type limit w = (Ok posts, w1) →
       notices w' = notices w ∧ r = Ok posts)
  ∧ (scraping_available self = true → ∀ e w1,
       scrape_live env self hashtags time_filter post_type limit w = (Raise e, w1) →
       notices w' = (notices w ++ [scraping_failed e])%list).
Proof.
  destruct (scraping_available self) eqn:Hself.
  - destruct (scrape_live env self hashtags time_filter post_type limit w)
      as [[posts|e] w1] eqn:Hlive.
    + unfold scrape_instagram_posts, try_except. rewrite Hself. cbn [negb].
      rewrite Hlive. intros [= <- <-].
      apply scrape_live_world in Hlive as (n & ->). simpl.
      split; [lia|]. split; [done|]. split; [done|]. split; [lia|].
      split; [done|]. split.
      * by intros _ posts' w2 [= <- _].
      * intros _ e' w2 Heq. discriminate Heq.
    + rewrite (scrape_caught env self hashtags time_filter post_type limit
                 w w1 e Hself Hlive).
      rewrite get_demo_data_run. intros [= _ <-].
      apply scrape_live_world in Hlive as (n & ->). simpl.
      split; [lia|]. split; [done|]. split; [done|]. split; [lia|].
      split; [done|]. split.
      * intros _ posts' w2 Heq. discriminate Heq.
      * by intros _ e' w2 [= <- _].
  - rewrite scrape_unconfigured by done.
    rewrite get_demo_data_run. intros [= _ <-]. simpl.
    split; [lia|]. split; [done|]. split; [done|]. split; [lia|].
    split; [done|]. split; intros Hf; discriminate Hf.
Qed.

End FetchEffects.

Section Examples10.
#[local] Existing Instance plain_case.

Lemma scrape_effects_witness :
  InstagramAnalytics.scraping_available unconfigured = false
  ∧ actor_runs (InstagramAnalytics.scrape_instagram_posts
                  (world_of still_clock None) unconfigured
                  ["#design"] "Week" "all" 10 fresh_world).2 = 0%nat.
Proof.
  split; [reflexivity|].
  destruct (InstagramAnalytics.scrape_instagram_posts
              (world_of still_clock None) unconfigured
              ["#design"] "Week" "all" 10 fresh_world) as [r w'] eqn:Hrun.
  destruct (scrape_effects _ _ _ _ _ _ _ _ _ Hrun) as (Hruns & _).
  exact Hruns.
Defined.

End Examples10.


(** ** The demo records *)

Section DemoRecords.
Import InstagramAnalytics.
Variable env : Env.
Variables (hashtags : list string) (time_filter post_type : string) (limit : Z).

Lemma filter_fmap_ext {A B} (P : B → Prop) (Q : A → Prop)
    `{∀ x, Decision (P x)} `{∀ x, Decision (Q x)} (f : A → B) (l : list A) :
  (∀ x, x ∈ l → P (f x) ↔ Q x) →
  filter P (f <$> l) = f <$> filter Q l.
Proof.
  induction l as [|a l IH]; intros Hl; [done|].
  rewrite fmap_cons, !filter_cons.
  assert (P (f a) ↔ Q a) as Ha by apply Hl, list_elem_of_here.
  rewrite IH by (intros x Hx; by apply Hl, list_elem_of_further).
  destruct (decide (P (f a))), (decide (Q a)); try done; tauto.
Qed.

Lemma mock_post_id_inj (pt1 pt2 : string) (i j : nat) (a b : Z) :
  Post.id (mock_post hashtags pt1 i a) = Post.id (mock_post hashtags pt2 j b) →
  i = j.
Proof.
  simpl. intros H. apply (inj _) in H. apply (inj _) in H. lia.
Qed.

(** X12. The demo records that a fetch returns.  There are at most [limit]
    of them, and none when [limit] is zero or negative.  Their identifiers
    are pairwise different.  With a kind filter other than [all] every
    record has that kind, whatever text the filter is; with [all] every
    record has one of the three kinds.  Every record carries one to three
    hashtags: the first three that were asked for, or [#design] when none
    was, and at least 1500 likes. *)
Theorem demo_data_result (w w' : World) (posts : list Post.t) :
  _get_demo_data env hashtags time_filter post_type limit w = (Ok posts, w') →
  (length posts ≤ Z.to_nat limit)%nat
  ∧ (limit ≤ 0 → posts = [])
  ∧ NoDup (Post.id <$> posts)
  ∧ (post_type ≠ "all" → Forall (λ post, Post.post_type post = post_type) posts)
  ∧ (post_type = "all" →
     Forall (λ post, Post.post_type post ∈ ["posts"; "carousels"; "reels"]) posts)
  ∧ Forall (λ post,
       Post.hashtags post = (if decide (hashtags = []) then ["#design"]
                             else take 3 hashtags)
       ∧ (1 ≤ length (Post.hashtags post) ≤ 3)%nat
       ∧ 1500 ≤ Post.likes post) posts.
Proof.
  rewrite get_demo_data_run. intros [= <- _].
  set (n := Z.to_nat limit). set (keep := λ post : Post.t, _).
  assert (∀ post, post ∈ filter keep (mock_list env hashtags post_type n w) →
            ∃ i, post = mock_post hashtags post_type i (clock env (clock_reads w + i)))
    as Hmock.
  { intros post [_ Hin]%list_elem_of_filter. unfold mock_list in Hin.
    apply list_elem_of_fmap in Hin as (i & -> & _). by exists i. }
  split; [|split; [|split; [|split; [|split]]]].
  - etransitivity; [apply length_filter|]. by rewrite mock_list_length.
  - intros Hle. subst keep n.
    assert (Z.to_nat limit = 0%nat) as -> by lia. reflexivity.
  - apply (sublist_NoDup _ (Post.id <$> mock_list env hashtags post_type n w)).
    + unfold mock_list. rewrite <- list_fmap_compose.
      apply NoDup_fmap_2_strong; [|apply NoDup_seq].
      intros i j _ _ Hij. by apply mock_post_id_inj in Hij.
    + apply fmap_sublist, sublist_filter.
  - intros Hne. apply Forall_forall. intros post (i & ->)%Hmock. simpl.
    by rewrite bool_decide_eq_false_2.
  - intros ->. apply Forall_forall. intros post (i & ->)%Hmock.
    cbn [Post.post_type mock_post bool_decide negb].
    rewrite bool_decide_eq_true_2 by done. cbn [negb].
    rewrite demo_kind_cycle. unfold demo_kind.
    destruct (i `mod` 3)%nat as [|[|k]].
    + apply list_elem_of_here.
    + apply list_elem_of_further, list_elem_of_here.
    + apply list_elem_of_further, list_elem_of_further, list_elem_of_here.
  - apply Forall_forall. intros post (i & ->)%Hmock.
    cbn [Post.hashtags Post.likes mock_post].
    destruct hashtags as [|h1 [|h2 [|h3 rest]]]; simpl; repeat split; lia.
Qed.

(** X13. Which demo records pass the time window.  On a clock that never
    goes back, every record that is returned has an index [i] with
    [i mod 30] at most the days of the window.  On a clock that stands
    still the converse holds too: the result is exactly the records with
    such an index, in the order of their indices. *)
Theorem demo_data_window (w w' : World) (posts : list Post.t) :
  _get_demo_data env hashtags time_filter post_type limit w = (Ok posts, w') →
  (monotone (clock env) →
   Forall (λ post, ∃ i : nat,
             (Z.of_nat i < limit)
             ∧ post = mock_post hashtags post_type i (clock env (clock_reads w + i))
             ∧ Z.of_nat i `mod` 30 ≤ days time_filter) posts)
  ∧ (∀ now, shows (clock env) now →
       posts = (λ i, mock_post hashtags post_type i now)
                 <$> filter (λ i, Z.of_nat i `mod` 30 ≤ days time_filter)
                       (seq 0 (Z.to_nat limit))).
Proof.
  rewrite get_demo_data_run, days_demo. intros [= <- _].
  set (n := Z.to_nat limit). split.
  - intros Hmono. apply Forall_forall.
    intros post [Hkeep Hin]%list_elem_of_filter. unfold mock_list in Hin.
    apply list_elem_of_fmap in Hin as (i & -> & Hi).
    apply elem_of_seq in Hi. exists i. split; [lia|]. split; [done|].
    simpl in Hkeep.
    pose proof (Hmono (clock_reads w + i)%nat (clock_reads w + n)%nat ltac:(lia)).
    unfold timedelta in Hkeep. lia.
  - intros now Hnow. unfold mock_list.
    rewrite (filter_fmap_ext _ (λ i, Z.of_nat i `mod` 30 ≤ days time_filter)).
    + apply list_fmap_ext. intros _ i _. by rewrite Hnow.
    + intros i _. simpl. rewrite !Hnow. unfold timedelta. lia.
Qed.

End DemoRecords.

Lemma demo_data_window_witness :
  monotone (clock (world_of still_clock None))
  ∧ shows (clock (world_of still_clock None)) (timedelta 100)
  ∧ Post.id <$> returned (InstagramAnalytics._get_demo_data
                            (world_of still_clock None) ["#ui"] "4 Days" "all"
                            40 fresh_world)
    = ["post_0"; "post_1"; "post_2"; "post_3"; "post_4";
       "post_30"; "post_31"; "post_32"; "post_33"; "post_34"].
Proof.
  assert (monotone (clock (world_of still_clock None))) as Hmono by (by intros i j _).
  assert (shows (clock (world_of still_clock None)) (timedelta 100)) as Hstill
    by (by intros i).
  split; [exact Hmono|]. split; [exact Hstill|].
  destruct (InstagramAnalytics._get_demo_data (world_of still_clock None)
              ["#ui"] "4 Days" "all" 40 fresh_world) as [[posts|e] w'] eqn:Hrun.
  - destruct (demo_data_window _ _ _ _ _ _ _ _ Hrun) as (_ & Hexact).
    unfold returned. simpl. rewrite (Hexact _ Hstill). reflexivity.
  - exfalso. revert Hrun.
    rewrite get_demo_data_run. discriminate.
Defined.

Lemma demo_data_result_witness :
  (0 ≤ 0)
  ∧ returned (InstagramAnalytics._get_demo_data
                (world_of still_clock None) ["#ui"] "Month" "all" 0 fresh_world)
    = [].
Proof.
  split; [lia|].
  destruct (InstagramAnalytics._get_demo_data (world_of still_clock None)
              ["#ui"] "Month" "all" 0 fresh_world) as [[posts|e] w'] eqn:Hrun.
  - destruct (demo_data_result _ _ _ _ _ _ _ _ Hrun) as (_ & Hnone & _).
    unfold returned. simpl. apply Hnone. lia.
  - reflexivity.
Defined.


(** ** What a classification does to the session *)

Section ClassifierEffects.
Import InstagramAnalytics.
Variables (env : Env) (self : t) (caption : string) (hashtags : list string).

(** X14. A classification never raises.  It calls the AI model exactly
    once when the model is available and never otherwise, reads no clock,
    starts no actor run and leaves the bookmarks alone.  When the call
    succeeds and the response parses as JSON, the parsed value is returned
    as it is, whatever its shape, and no notice is shown; in every other
    case with the model available one warning is shown. *)
Theorem analyze_with_gemini_effects (w w' : World) (r : res value) :
  analyze_with_gemini env self caption hashtags w = (r, w') →
  is_ok r = true
  ∧ model_calls w' = (model_calls w + if ai_available self then 1 else 0)%nat
  ∧ clock_reads w' = clock_reads w
  ∧ actor_runs w' = actor_runs w
  ∧ bookmarks w' = bookmarks w
  ∧ (ai_available self = true → ∀ text v,
       generate_content env (model_calls w) (prompt caption hashtags) = Ok text →
       json_loads env text = Ok v →
       r = Ok v ∧ notices w' = notices w)
  ∧ (notices w' = notices w
     ∨ ∃ e, notices w' = (notices w ++ [analysis_failed e])%list).
Proof.
  unfold analyze_with_gemini, try_except.
  destruct (ai_available self); cbn [negb].
  - unfold mbind, M_bind. rewrite model_generate_content_run.
    destruct (generate_content env (model_calls w) (prompt caption hashtags))
      as [text|e] eqn:Hgen.
    + unfold lift. destruct (json_loads env text) as [v|e] eqn:Hjson;
        intros [= <- <-]; simpl.
      * split; [done|]. split; [lia|]. do 3 (split; [done|]).
        split; [|by left]. by intros _ text' v' [= <-] [= <-].
      * split; [done|]. split; [lia|]. do 3 (split; [done|]).
        split; [|right; by exists e].
        intros _ text' v' [= <-] Hv. congruence.
    + intros [= <- <-]. simpl.
      split; [done|]. split; [lia|]. do 3 (split; [done|]).
      split; [|right; by exists e]. intros _ text' v' Ht. discriminate Ht.
  - intros [= <- <-]. simpl.
    split; [done|]. split; [lia|]. do 3 (split; [done|]).
    split; [|by left]. intros Hf. discriminate Hf.
Qed.

End ClassifierEffects.

Lemma analyze_with_gemini_effects_witness :
  InstagramAnalytics.ai_available configured = true
  ∧ InstagramAnalytics.analyze_with_gemini (answering "[1]" (Ok (VList [VInt 1])))
      configured "Hello" [] fresh_world
    = (Ok (VList [VInt 1]), called_model fresh_world).
Proof.
  split; [reflexivity|].
  destruct (InstagramAnalytics.analyze_with_gemini
              (answering "[1]" (Ok (VList [VInt 1]))) configured "Hello" []
              fresh_world) as [r w'] eqn:Hrun.
  destruct (analyze_with_gemini_effects _ _ _ _ _ _ _ Hrun)
    as (_ & _ & _ & _ & _ & Hpass & _).
  destruct (Hpass eq_refl "[1]" (VList [VInt 1]) eq_refl eq_refl) as [-> _].
  revert Hrun. vm_compute. by intros [= <-].
Defined.


(** ** Sequences of bookmark toggles *)

Section Toggles.
Import InstagramAnalytics.

Lemma bookmark_post_elem (i y : string) (w : World) :
  NoDup (bookmarks w) →
  y ∈ bookmarks (bookmark_post i w).2
  ↔ (if decide (y = i) then y ∉ bookmarks w else y ∈ bookmarks w).
Proof.
  intros Hw. rewrite bookmark_post_bookmarks. simpl.
  case_bool_decide as Hin.
  - destruct (list_remove_NoDup i _ Hw Hin) as [_ Hout].
    pose proof (list_remove_perm i _ Hin) as Hp.
    assert (y ∈ bookmarks w ↔ y = i ∨ y ∈ list_remove i (bookmarks w)) as Hmem.
    { rewrite <- elem_of_cons. by rewrite Hp. }
    destruct (decide (y = i)) as [->|Hne]; [tauto|]. rewrite Hmem. tauto.
  - rewrite elem_of_app, list_elem_of_singleton.
    destruct (decide (y = i)) as [->|Hne]; tauto.
Qed.

Lemma toggled_snoc (ids : list string) (i : string) :
  toggled (ids ++ [i]) = (bookmark_post i (toggled ids)).2.
Proof. unfold toggled. by rewrite foldl_app. Qed.

Lemma times_snoc (x i : string) (ids : list string) :
  times x (ids ++ [i]) = (times x ids + if decide (i = x) then 1 else 0)%nat.
Proof.
  unfold times. rewrite filter_app, length_app, filter_cons, filter_nil.
  by destruct (decide (i = x)).
Qed.

(** X15. Bookmarks after any sequence of presses of the bookmark button,
    starting from none: an identifier is bookmarked exactly when its button
    was pressed an odd number of times; the list never holds an identifier
    twice; and one confirmation was shown for every press. *)
Theorem bookmarks_parity (ids : list string) (x : string) :
  (x ∈ bookmarks (toggled ids) ↔ Nat.odd (times x ids) = true)
  ∧ NoDup (bookmarks (toggled ids))
  ∧ length (notices (toggled ids)) = length ids.
Proof.
  assert (NoDup (bookmarks (toggled ids))) as Hnd
    by apply bookmarks_reachable_NoDup.
  split; [|split; [done|]].
  - clear Hnd. revert x. induction ids as [|i ids IH] using rev_ind; intros x.
    + simpl. split; [by intros H%elem_of_nil | discriminate].
    + assert (NoDup (bookmarks (toggled ids))) as Hnd'
        by apply bookmarks_reachable_NoDup.
      rewrite toggled_snoc, times_snoc, (bookmark_post_elem _ _ _ Hnd').
      destruct (decide (x = i)) as [->|Hne].
      * rewrite decide_True by done. rewrite Nat.add_1_r, Nat.odd_succ.
        rewrite <- Nat.negb_odd, negb_true_iff, IH.
        apply not_true_iff_false.
      * rewrite decide_False by done. by rewrite Nat.add_0_r, IH.
  - clear Hnd. induction ids as [|i ids IH] using rev_ind; [done|].
    rewrite toggled_snoc, bookmark_post_bookmarks. simpl.
    rewrite !length_app, IH. done.
Qed.

Lemma filter_list_remove (x : string) (l : list string) :
  filter (λ y, y ≠ x) (list_remove x l) = filter (λ y, y ≠ x) l.
Proof.
  induction l as [|y l IH]; simpl; [done|].
  case_bool_decide as Hy.
  - subst y. rewrite filter_cons. by rewrite decide_False by (by intros Hne).
  - by rewrite !filter_cons, IH.
Qed.

(** X16. One press of the bookmark button touches one identifier only.  On
    a list without repetition, the other identifiers stay bookmarked in the
    order they had, and the number of bookmarks goes up by one when the
    identifier was absent and down by one when it was present.  In the
    bookmarks panel the posts with other identifiers stay as they were, and
    the posts with this identifier are all there after the press when none
    was before, and all gone otherwise.  One confirmation is shown and
    nothing else of the session changes. *)
Theorem bookmark_post_local (post_id : string) (posts_data : list Post.t)
    (w : World) :
  NoDup (bookmarks w) →
  let w1 := (bookmark_post post_id w).2 in
  filter (λ y, y ≠ post_id) (bookmarks w1)
    = filter (λ y, y ≠ post_id) (bookmarks w)
  ∧ (post_id ∉ bookmarks w → length (bookmarks w1) = S (length (bookmarks w)))
  ∧ (post_id ∈ bookmarks w → S (length (bookmarks w1)) = length (bookmarks w))
  ∧ filter (λ post, Post.id post ≠ post_id) (bookmarked_posts posts_data w1)
    = filter (λ post, Post.id post ≠ post_id) (bookmarked_posts posts_data w)
  ∧ filter (λ post, Post.id post = post_id) (bookmarked_posts posts_data w1)
    = (if decide (post_id ∈ bookmarks w) then []
       else filter (λ post, Post.id post = post_id) posts_data)
  ∧ length (notices w1) = S (length (notices w))
  ∧ clock_reads w1 = clock_reads w
  ∧ actor_runs w1 = actor_runs w
  ∧ model_calls w1 = model_calls w.
Proof.
  intros Hw w1.
  assert (∀ y, y ∈ bookmarks w1
               ↔ (if decide (y = post_id) then y ∉ bookmarks w
                  else y ∈ bookmarks w)) as Hmem
    by (intros y; by apply bookmark_post_elem).
  subst w1. rewrite bookmark_post_bookmarks in Hmem |- *. simpl in Hmem |- *.
  split; [|split; [|split; [|split; [|split]]]].
  - case_bool_decide; [apply filter_list_remove|].
    rewrite filter_app, filter_cons, filter_nil.
    rewrite decide_False by (by intros Hne). by rewrite app_nil_r.
  - intros Hout. rewrite bool_decide_eq_false_2 by done.
    rewrite length_app. simpl. lia.
  - intros Hin. rewrite bool_decide_eq_true_2 by done.
    by rewrite <- (list_remove_perm post_id _ Hin) at 2.
  - unfold bookmarked_posts. simpl. rewrite !list_filter_filter.
    apply list_filter_iff. intros post. rewrite Hmem.
    destruct (decide (Post.id post = post_id)); tauto.
  - unfold bookmarked_posts. simpl. rewrite list_filter_filter.
    destruct (decide (post_id ∈ bookmarks w)) as [Hin|Hout].
    + induction posts_data as [|post l IH]; [done|].
      rewrite filter_cons, IH. rewrite decide_False; [done|].
      intros [Heq Hin']. apply Hmem in Hin'.
      rewrite decide_True in Hin' by done. by rewrite Heq in Hin'.
    + apply list_filter_iff. intros post. rewrite Hmem. split.
      * by intros [? _].
      * intros Heq. split; [done|]. rewrite decide_True by done.
        by rewrite Heq.
  - rewrite length_app. simpl. repeat split; lia.
Qed.

End Toggles.

Lemma bookmark_post_local_witness :
  NoDup ["a"; "b"]
  ∧ filter (λ post, Post.id post = "a")
      (bookmarked_posts
         [sample_post "b" 1 0; sample_post "a" 2 0; sample_post "c" 3 0]
         (InstagramAnalytics.bookmark_post "a"
            (InstagramAnalytics.set_bookmarks ["a"; "b"] fresh_world)).2)
    = [].
Proof.
  assert (NoDup ["a"; "b"]) as H.
  { apply NoDup_cons_2; [|apply NoDup_singleton].
    intros Hin%list_elem_of_singleton. discriminate Hin. }
  split; [exact H|].
  destruct (bookmark_post_local "a"
              [sample_post "b" 1 0; sample_post "a" 2 0; sample_post "c" 3 0]
              (InstagramAnalytics.set_bookmarks ["a"; "b"] fresh_world) H)
    as (_ & _ & _ & _ & Hgone & _).
  rewrite Hgone. reflexivity.
Defined.


(** ** The metrics row *)

Section MetricsRow.
Context {A : Type} (key : A → Z).

Lemma max_from_spec (best : A) (l : list A) :
  let r := max_from key best l in
  (r = best ∨ r ∈ l)
  ∧ key best ≤ key r
  ∧ (∀ x, x ∈ l → key x ≤ key r)
  ∧ (if decide (key r = key best) then r = best
     else head (with_key key (key r) l) = Some r).
Proof.
  revert best. induction l as [|x l IH]; intros best; simpl.
  - split; [by left|]. split; [lia|]. split; [by intros x H%elem_of_nil|].
    by rewrite decide_True.
  - destruct (key best <? key x) eqn:Hlt.
    + apply Z.ltb_lt in Hlt.
      destruct (IH x) as (Hin & Hle & Hmax & Hfirst).
      set (r := max_from key x l) in *.
      split; [right; destruct Hin as [->|Hin]; [by left | by right]|].
      split; [lia|]. split.
      { intros y [->|Hy]%elem_of_cons; [done | by apply Hmax]. }
      rewrite decide_False by lia. unfold with_key. rewrite filter_cons.
      destruct (decide (key r = key x)) as [Heq|Hne].
      * subst r. rewrite Hfirst. by rewrite decide_True.
      * by rewrite decide_False by done.
    + apply Z.ltb_ge in Hlt.
      destruct (IH best) as (Hin & Hle & Hmax & Hfirst).
      set (r := max_from key best l) in *.
      split; [destruct Hin as [->|Hin]; [by left | right; by right]|].
      split; [done|]. split.
      { intros y [->|Hy]%elem_of_cons; [lia | by apply Hmax]. }
      destruct (decide (key r = key best)) as [Heq|Hne]; [done|].
      unfold with_key. rewrite filter_cons.
      by rewrite decide_False by lia.
Qed.

(** The item [max] returns: the first of the items with the largest key. *)
Lemma py_max_first (l : list A) (p : A) :
  py_max key l = Some p →
  p ∈ l ∧ (∀ x, x ∈ l → key x ≤ key p)
  ∧ head (with_key key (key p) l) = Some p.
Proof.
  destruct l as [|x l]; [done|]. simpl. intros [= <-].
  destruct (max_from_spec x l) as (Hin & Hle & Hmax & Hfirst).
  set (r := max_from key x l) in *.
  split; [destruct Hin as [->|Hin]; [by left | by right]|]. split.
  { intros y [->|Hy]%elem_of_cons; [done | by apply Hmax]. }
  unfold with_key. rewrite filter_cons.
  destruct (decide (key r = key x)) as [Heq|Hne].
  - rewrite decide_True by done. simpl. by rewrite Hfirst.
  - by rewrite decide_False by done.
Qed.

(** The head of the list sorted in descending order is that same item. *)
Lemma list_sort_head_first (l : list A) (h : A) :
  head (list_sort key true l) = Some h →
  h ∈ l ∧ (∀ x, x ∈ l → key x ≤ key h)
  ∧ head (with_key key (key h) l) = Some h.
Proof.
  intros Hh. destruct (list_sort key true l) as [|h' t] eqn:Hs; [done|].
  injection Hh as ->.
  pose proof (list_sort_perm key l) as Hp. rewrite Hs in Hp.
  pose proof (list_sort_descending key l) as Hd. rewrite Hs in Hd.
  pose proof (list_sort_with_key key (key h) l) as Hk. rewrite Hs in Hk.
  apply StronglySorted_inv in Hd as [_ Hd]. rewrite Forall_forall in Hd.
  split; [rewrite <- Hp; by left|]. split.
  - intros x Hx. rewrite <- Hp in Hx.
    apply elem_of_cons in Hx as [->|Hx]; [done | by apply Hd].
  - rewrite <- Hk. unfold with_key. rewrite filter_cons.
    by rewrite decide_True.
Qed.

Lemma py_max_sort_head (l : list A) :
  py_max key l = head (list_sort key true l).
Proof.
  destruct (py_max key l) as [p|] eqn:Hp.
  - destruct (head (list_sort key true l)) as [h|] eqn:Hh.
    + apply py_max_first in Hp as (Hpin & Hpmax & Hpfirst).
      apply list_sort_head_first in Hh as (Hhin & Hhmax & Hhfirst).
      assert (key p = key h) as Heq.
      { pose proof (Hpmax h Hhin). pose proof (Hhmax p Hpin). lia. }
      rewrite Heq in Hpfirst. congruence.
    + exfalso. destruct l as [|x l]; [done|].
      pose proof (list_sort_perm key (x :: l)) as Hperm.
      apply Permutation_length in Hperm.
      by destruct (list_sort key true (x :: l)).
  - by destruct l.
Qed.

End MetricsRow.

Lemma sum_of_perm (f : Post.t → Z) (l1 l2 : list Post.t) :
  l1 ≡ₚ l2 → sum_of f l1 = sum_of f l2.
Proof.
  unfold sum_of. induction 1; simpl; lia.
Qed.

(** X17. The metrics row.  It is skipped exactly for an empty list, so the
    averages never divide by zero.  The top creator is the creator of the
    first of the posts with the most likes, which is the first post of the
    list once it is sorted by likes.  The number of posts and the two sums
    behind the averages are the same for every sort criterion. *)
Theorem metrics_row (posts : list Post.t) :
  (metrics posts = None ↔ posts = [])
  ∧ (∀ m, metrics posts = Some m →
       total_posts m = length posts
       ∧ (0 < total_posts m)%nat
       ∧ ∃ top, top ∈ posts
           ∧ top_creator m = Post.creator top
           ∧ (∀ post, post ∈ posts → Post.likes post ≤ Post.likes top)
           ∧ head (with_key Post.likes (Post.likes top) posts) = Some top
           ∧ ∃ sorted,
               InstagramAnalytics.sort_posts "Likes" posts = Ok sorted
               ∧ head sorted = Some top)
  ∧ (∀ sort_by sorted m m',
       metrics posts = Some m →
       InstagramAnalytics.sort_posts sort_by posts = Ok sorted →
       metrics sorted = Some m' →
       total_posts m' = total_posts m
       ∧ sum_likes m' = sum_likes m
       ∧ sum_engagement m' = sum_engagement m).
Proof.
  split; [|split].
  - unfold metrics. destruct posts; simpl; split; done.
  - intros m Hm. unfold metrics in Hm.
    destruct (py_max Post.likes posts) as [top|] eqn:Htop; [|done].
    injection Hm as <-. simpl.
    split; [done|]. split; [destruct posts; [done | simpl; lia]|].
    exists top. pose proof Htop as (Hin & Hmax & Hfirst)%py_max_first.
    split; [done|]. split; [done|]. split; [done|]. split; [done|].
    exists (list_sort Post.likes true posts). split; [reflexivity|].
    by rewrite <- py_max_sort_head.
  - intros sort_by sorted m m' Hm Hp Hm'. unfold metrics in Hm, Hm'.
    destruct (py_max Post.likes posts); [|done].
    destruct (py_max Post.likes _); [|done].
    injection Hm as <-. injection Hm' as <-. simpl.
    apply sort_posts_perm in Hp.
    split; [by rewrite Hp|]. split; by apply sum_of_perm.
Qed.

Lemma metrics_row_witness :
  ∃ m, metrics [sample_post "a" 5 0; sample_post "b" 9 0; sample_post "c" 9 0]
       = Some m
       ∧ total_posts m = 3%nat.
Proof.
  eexists. split; [reflexivity|].
  by apply (metrics_row [sample_post "a" 5 0; sample_post "b" 9 0;
                         sample_post "c" 9 0]).
Defined.

(** ** The hashtag options *)

(** X18. The options of the hashtag multiselect, for any presets: the list
    is in ascending order, holds no hashtag twice, and holds exactly the
    hashtags of the presets.  For the presets of the program these are 37
    hashtags (five of the 42 listed occur in two categories), and the three
    preselected hashtags are among them. *)
Theorem get_all_hashtags_spec (presets : list (string * list string)) :
  StronglySorted String.le (get_all_hashtags presets)
  ∧ NoDup (get_all_hashtags presets)
  ∧ (∀ tag, tag ∈ get_all_hashtags presets
            ↔ ∃ category tags, (category, tags) ∈ presets ∧ tag ∈ tags)
  ∧ length (get_all_hashtags hashtag_presets) = 37%nat
  ∧ length (mjoin (snd <$> hashtag_presets)) = 42%nat
  ∧ default_hashtags ⊆ get_all_hashtags hashtag_presets.
Proof.
  unfold get_all_hashtags, sorted.
  split; [apply (StronglySorted_merge_sort _)|].
  split; [rewrite merge_sort_Permutation; apply NoDup_elements|].
  split.
  { intros tag. rewrite merge_sort_Permutation, elem_of_elements,
      elem_of_list_to_set, list_elem_of_join. split.
    - intros (tags & Htag & Hin). apply list_elem_of_fmap in Hin as ([c t] & -> & Hin).
      by exists c, t.
    - intros (c & t & Hin & Htag). exists t. split; [done|].
      apply list_elem_of_fmap. by exists (c, t). }
  split; [by vm_compute|]. split; [done|].
  intros tag Htag. rewrite merge_sort_Permutation, elem_of_elements,
    elem_of_list_to_set.
  unfold default_hashtags in Htag.
  repeat (apply elem_of_cons in Htag as [->|Htag];
          [rewrite !list_elem_of_In; vm_compute; tauto|]).
  by apply elem_of_nil in Htag.
Qed.

(** ** Testing the keys *)

Section KeyTests.
Context {UC : Unicode}.
Variables (net : Network) (api_keys : gmap string string).

(** X19. The key test reports on Apify and on Gemini, in this order, one
    status each, and shows a heading and one line per service.  Apify is
    Not Set exactly when its token is empty, Valid exactly when the request
    is answered with status 200, Invalid when it is answered with any other
    status, and Connection Error exactly when the request raises.  Gemini
    is Not Set exactly when its key is empty and Valid exactly when the
    round trip does not raise; every exception makes it Invalid, so a
    failure to connect is reported as an invalid key.  A service is
    contacted only when its key is set. *)
Theorem test_api_keys_spec :
  let run := test_api_keys net api_keys in
  let token := SecretsManager.get_secret api_keys "apify_token" in
  let key := SecretsManager.get_secret api_keys "gemini_api_key" in
  ∃ apify gemini,
    results run = [("Apify", apify); ("Gemini", gemini)]
    ∧ shown run = ["### 🧪 API Key Test Results";
                   "**Apify**: " +:+ apify; "**Gemini**: " +:+ gemini]
    ∧ (apify = "⚠️ Not Set" ↔ token = "")
    ∧ (apify = "✅ Valid"
       ↔ token ≠ ""
         ∧ requests_get net apify_users_me ("Bearer " +:+ token) = Ok 200)
    ∧ (apify = "❌ Connection Error"
       ↔ token ≠ ""
         ∧ is_ok (requests_get net apify_users_me ("Bearer " +:+ token)) = false)
    ∧ (apify = "❌ Invalid"
       ↔ token ≠ ""
         ∧ ∃ code, code ≠ 200
             ∧ requests_get net apify_users_me ("Bearer " +:+ token) = Ok code)
    ∧ (gemini = "⚠️ Not Set" ↔ key = "")
    ∧ (gemini = "✅ Valid" ↔ key ≠ "" ∧ is_ok (gemini_hello net key) = true)
    ∧ (gemini = "❌ Invalid" ↔ key ≠ "" ∧ is_ok (gemini_hello net key) = false)
    ∧ gemini ≠ "❌ Connection Error"
    ∧ contacted run
      = ((if decide (token = "") then []
          else [(apify_users_me, "Bearer " +:+ token)])
         ++ (if decide (key = "") then [] else [("gemini-pro", key)]))%list.
Proof.
  intros run token key. subst run. unfold test_api_keys. fold token key.
  cbn zeta.
  do 2 eexists. split; [reflexivity|]. split; [reflexivity|].
  destruct (truthy_str token) eqn:Ht; [apply truthy_str_spec in Ht
    | apply not_true_iff_false in Ht; rewrite truthy_str_spec in Ht;
      apply dec_stable in Ht].
  all: destruct (truthy_str key) eqn:Hk; [apply truthy_str_spec in Hk
    | apply not_true_iff_false in Hk; rewrite truthy_str_spec in Hk;
      apply dec_stable in Hk].
  all: try rewrite (decide_False (P := token = "")) by done.
  all: try rewrite (decide_True (P := token = "")) by done.
  all: try rewrite (decide_False (P := key = "")) by done.
  all: try rewrite (decide_True (P := key = "")) by done.
  all: destruct (requests_get net apify_users_me ("Bearer " +:+ token))
         as [code|e] eqn:Hreq; simpl.
  all: try (destruct (code =? 200) eqn:Hcode;
            [apply Z.eqb_eq in Hcode; subst code | apply Z.eqb_neq in Hcode]).
  all: destruct (gemini_hello net key) as [[]|e'] eqn:Hhello; simpl.
  all: repeat split; try done; try (intros H; discriminate H);
         try (intros [? H]; done); try (intros [? H]; discriminate H);
         try (intros [? (? & ? & H)]; congruence);
         try (intros _; by eexists);
         try (intros [_ [= ?]]; done);
         try (by eexists).
Qed.

End KeyTests.

Section Examples11.
#[local] Existing Instance plain_case.

Lemma test_api_keys_offline :
  results (test_api_keys offline {[ "apify_token" := "t"; "gemini_api_key" := "k" ]})
  = [("Apify", "❌ Connection Error"); ("Gemini", "❌ Invalid")].
Proof. reflexivity. Qed.

End Examples11.


(** ** Loading posts in [main] *)

Section LoadPosts.
Context {UC : Unicode}.
Import InstagramAnalytics.
Variables (env : Env) (self : t).
Variables (hashtags : list string) (time_filter : string) (limit : Z).








End LoadPosts.

Section Examples12.
#[local] Existing Instance plain_case.


End Examples12.


(** ** Start-up *)

Section StartUp.
Context {UC : Unicode}.
Import InstagramAnalytics.
Variables (src : SecretsManager.Sources) (env : Env).


End StartUp.
